(** * EventPlaneAtLHCb: event-plane Q-vectors and Lambda/event-plane matching

    A shallow embedding of the two analysis macros of the repository,

    - [EventPlaneAnalysis.cpp]: event selection, the per-track loop that
      fills the Q-vectors and the multiplicity counters, the
      sub-event multiplicity requirement and the filling of the output tree;
      the selection of the input files by name and the loop over them;
    - [GlobalPolarizationAnalysis_FilePrep.C]: the (run, event) index over
      the event-plane tree, the twelve selection cuts with their counters,
      and the matching of Lambda candidates; the hash of a key and the
      early exits of the macro.

    Numeric conventions.  [Int_t], [Long64_t], [UInt_t] and [ULong64_t]
    quantities are integers ([Z], [N]); every counter of the source is
    bounded by the number of loop iterations (lemmas [counters_bounded] and
    [totals_bounded] below), so no 32-bit counter wraps for inputs that fit
    the fixed-size branch buffers.  A finite [Float_t]/[Double_t] value that
    is only compared or negated is the rational number it denotes ([Q]): the
    constants it is compared with are taken as written in the source.
    Azimuthal angles and the Q-vector sums are real numbers ([R]) with the
    real [cos], [sin] and [PI]: rounding, infinities and NaN are outside
    this model. *)

From Stdlib Require Import ZArith QArith Qabs Reals Qreals Psatz List.
From stdpp Require Import gmap strings.
Import ListNotations.

Local Open Scope Z_scope.

(** ** Fixed-size arrays *)

(** [T a[2]] and [T a[4]]: the source indexes them with literals and with
    the loop variables [i < 2], [j < 4] only. *)
Record Arr2 (T : Type) : Type := mkArr2 { a2_0 : T; a2_1 : T }.
Record Arr4 (T : Type) : Type :=
  mkArr4 { a4_0 : T; a4_1 : T; a4_2 : T; a4_3 : T }.
Arguments mkArr2 {T} _ _.
Arguments a2_0 {T} _.
Arguments a2_1 {T} _.
Arguments mkArr4 {T} _ _ _ _.
Arguments a4_0 {T} _.
Arguments a4_1 {T} _.
Arguments a4_2 {T} _.
Arguments a4_3 {T} _.

Definition get2 {T} (i : nat) (a : Arr2 T) : T :=
  match i with O => a2_0 a | _ => a2_1 a end.

Definition get4 {T} (j : nat) (a : Arr4 T) : T :=
  match j with
  | O => a4_0 a
  | 1%nat => a4_1 a
  | 2%nat => a4_2 a
  | _ => a4_3 a
  end.

Definition upd2 {T} (i : nat) (f : T -> T) (a : Arr2 T) : Arr2 T :=
  match i with
  | O => mkArr2 (f (a2_0 a)) (a2_1 a)
  | 1%nat => mkArr2 (a2_0 a) (f (a2_1 a))
  | _ => a
  end.

Definition upd4 {T} (j : nat) (f : T -> T) (a : Arr4 T) : Arr4 T :=
  match j with
  | O => mkArr4 (f (a4_0 a)) (a4_1 a) (a4_2 a) (a4_3 a)
  | 1%nat => mkArr4 (a4_0 a) (f (a4_1 a)) (a4_2 a) (a4_3 a)
  | 2%nat => mkArr4 (a4_0 a) (a4_1 a) (f (a4_2 a)) (a4_3 a)
  | 3%nat => mkArr4 (a4_0 a) (a4_1 a) (a4_2 a) (f (a4_3 a))
  | _ => a
  end.

(** [a[i][j]] for a [2][4] array. *)
Definition get24 {T} (i j : nat) (a : Arr2 (Arr4 T)) : T := get4 j (get2 i a).

(** [a[i] += v] and [a[i][j] += v] on arrays of doubles. *)
Definition add2 (i : nat) (v : R) (a : Arr2 R) : Arr2 R :=
  upd2 i (fun x => (x + v)%R) a.
Definition add24 (i j : nat) (v : R) (a : Arr2 (Arr4 R)) : Arr2 (Arr4 R) :=
  upd2 i (upd4 j (fun x => (x + v)%R)) a.

Definition zero2 : Arr2 R := mkArr2 0%R 0%R.
Definition zero4 : Arr4 R := mkArr4 0%R 0%R 0%R 0%R.
Definition zero24 : Arr2 (Arr4 R) := mkArr2 zero4 zero4.

(** Strict comparison of two finite floating-point values. *)
Definition Qlt_bool (x y : Q) : bool := negb (Qle_bool y x).

(** Number of elements of a list that satisfy a test. *)
Fixpoint count_if {A : Type} (p : A -> bool) (l : list A) : Z :=
  match l with
  | [] => 0
  | x :: rest => (if p x then 1 else 0) + count_if p rest
  end.

(** Sum of a real quantity over a list. *)
Fixpoint sum_over {A : Type} (f : A -> R) (l : list A) : R :=
  match l with
  | [] => 0%R
  | x :: rest => (f x + sum_over f rest)%R
  end.

(** The largest value of a 32-bit [int]. *)
Definition INT_MAX : Z := 2 ^ 31 - 1.

(** ** EventPlaneAnalysis.cpp *)

Module EPAnalysis.

(** One slot [iTrack] of the [VELOTRACK_*] branch buffers (the columns the
    track loop reads). *)
Record Track : Type := mkTrack {
  VELOTRACK_BIPCHI2 : Q;
  VELOTRACK_ETA : Q;
  VELOTRACK_ISBACKWARD : Q;
  VELOTRACK_PHI : R
}.

(** One entry of the input tree [EventTuplePV] after [GetEntry]: the scalar
    branches, slot 0 of the [PVX]/[PVY]/[PVZ] buffers, and the track
    buffers. *)
Record Entry : Type := mkEntry {
  GPSTIME : N;
  EVENTNUMBER : N;
  RUNNUMBER : N;
  PVX_0 : Q;
  PVY_0 : Q;
  PVZ_0 : Q;
  nBackTracks : Z;
  nPVs : Z;
  nVeloClusters : Z;
  nVeloTracks : Z;
  nEcalClusters : Z;
  ECalETot : Z;
  nLongTracks : Z;
  nVPClusters : Z;
  tracks : list Track
}.

(** The locals of one event iteration: the five multiplicities and the
    eight Q-vector arrays. *)
Record Locals : Type := mkLocals {
  nPrimaryForTracks : Z;
  nPrimaryBackTracks : Z;
  nPrimaryForTracks_1 : Z;
  nPrimaryForTracks_2 : Z;
  nPrimaryForTracks_3 : Z;
  Qx_back : Arr2 R;
  Qy_back : Arr2 R;
  Qx_for : Arr2 (Arr4 R);
  Qy_for : Arr2 (Arr4 R);
  Qx_back_wEta : Arr2 R;
  Qy_back_wEta : Arr2 R;
  Qx_for_wEta : Arr2 (Arr4 R);
  Qy_for_wEta : Arr2 (Arr4 R)
}.

(** Lines 237-253: counters at 0, every Q-vector component at 0. *)
Definition init_locals : Locals :=
  mkLocals 0 0 0 0 0 zero2 zero2 zero24 zero24 zero2 zero2 zero24 zero24.

(** The class [Event] written to the output tree. *)
Record Event : Type := mkEvent {
  outGPSTIME : N;
  outEVENTNUMBER : N;
  outPVX : Q;
  outPVY : Q;
  outPVZ : Q;
  outRUNNUMBER : N;
  outnBackTracks : Z;
  outnVeloClusters : Z;
  outnVeloTracks : Z;
  outnEcalClusters : Z;
  outECalETot : Z;
  outnLongTracks : Z;
  outnVPClusters : Z;
  outQx_back : Arr2 R;
  outQy_back : Arr2 R;
  outQx_for : Arr2 (Arr4 R);
  outQy_for : Arr2 (Arr4 R);
  outQx_back_wEta : Arr2 R;
  outQy_back_wEta : Arr2 R;
  outQx_for_wEta : Arr2 (Arr4 R);
  outQy_for_wEta : Arr2 (Arr4 R);
  out_Qmulti : Arr4 Z
}.

(** Lines 231-234, the four [continue] statements: [true] when the event
    goes on to the track loop. *)
Definition event_selection (e : Entry) : bool :=
  if negb (nPVs e =? 1) then false
  else if nBackTracks e <? 10 then false
  else if Qlt_bool (PVZ_0 e) (-100) || Qlt_bool 100 (PVZ_0 e) then false
  else if nVeloTracks e <? 15 then false
  else true.

(** Line 261: [VELOTRACK_BIPCHI2[iTrack] > 1.5]. *)
Definition fails_quality (t : Track) : bool :=
  Qlt_bool 1.5 (VELOTRACK_BIPCHI2 t).

(** [VELOTRACK_ISBACKWARD[iTrack] == 1]. *)
Definition is_backward (t : Track) : bool :=
  Qeq_bool (VELOTRACK_ISBACKWARD t) 1.

(** Lines 264-267: the buffers are changed in place. *)
Definition flip (t : Track) : Track :=
  if is_backward t then
    mkTrack (VELOTRACK_BIPCHI2 t)
            (VELOTRACK_ETA t * -1)%Q
            (VELOTRACK_ISBACKWARD t)
            (VELOTRACK_PHI t + PI)%R
  else t.

(** [n++] on each of the five multiplicities. *)
Definition incr_For (s : Locals) : Locals :=
  mkLocals (nPrimaryForTracks s + 1) (nPrimaryBackTracks s)
    (nPrimaryForTracks_1 s) (nPrimaryForTracks_2 s) (nPrimaryForTracks_3 s)
    (Qx_back s) (Qy_back s) (Qx_for s) (Qy_for s)
    (Qx_back_wEta s) (Qy_back_wEta s) (Qx_for_wEta s) (Qy_for_wEta s).

Definition incr_Back (s : Locals) : Locals :=
  mkLocals (nPrimaryForTracks s) (nPrimaryBackTracks s + 1)
    (nPrimaryForTracks_1 s) (nPrimaryForTracks_2 s) (nPrimaryForTracks_3 s)
    (Qx_back s) (Qy_back s) (Qx_for s) (Qy_for s)
    (Qx_back_wEta s) (Qy_back_wEta s) (Qx_for_wEta s) (Qy_for_wEta s).

Definition incr_For_1 (s : Locals) : Locals :=
  mkLocals (nPrimaryForTracks s) (nPrimaryBackTracks s)
    (nPrimaryForTracks_1 s + 1) (nPrimaryForTracks_2 s) (nPrimaryForTracks_3 s)
    (Qx_back s) (Qy_back s) (Qx_for s) (Qy_for s)
    (Qx_back_wEta s) (Qy_back_wEta s) (Qx_for_wEta s) (Qy_for_wEta s).

Definition incr_For_2 (s : Locals) : Locals :=
  mkLocals (nPrimaryForTracks s) (nPrimaryBackTracks s)
    (nPrimaryForTracks_1 s) (nPrimaryForTracks_2 s + 1) (nPrimaryForTracks_3 s)
    (Qx_back s) (Qy_back s) (Qx_for s) (Qy_for s)
    (Qx_back_wEta s) (Qy_back_wEta s) (Qx_for_wEta s) (Qy_for_wEta s).

Definition incr_For_3 (s : Locals) : Locals :=
  mkLocals (nPrimaryForTracks s) (nPrimaryBackTracks s)
    (nPrimaryForTracks_1 s) (nPrimaryForTracks_2 s) (nPrimaryForTracks_3 s + 1)
    (Qx_back s) (Qy_back s) (Qx_for s) (Qy_for s)
    (Qx_back_wEta s) (Qy_back_wEta s) (Qx_for_wEta s) (Qy_for_wEta s).

(** Lines 274-276, the three weights of a track. *)
Definition w1 : R := 1%R.
Definition w2 : R := 1%R.
Definition wEta1 (t : Track) : R := Q2R (VELOTRACK_ETA t).

(** Lines 281-288: the six [+=] of the backward block. *)
Definition fill_back (t : Track) (s : Locals) : Locals :=
  let phi := VELOTRACK_PHI t in
  mkLocals (nPrimaryForTracks s) (nPrimaryBackTracks s)
    (nPrimaryForTracks_1 s) (nPrimaryForTracks_2 s) (nPrimaryForTracks_3 s)
    (add2 1 (w2 * cos (2 * phi))%R (add2 0 (w1 * cos (1 * phi))%R (Qx_back s)))
    (add2 1 (w2 * sin (2 * phi))%R (add2 0 (w1 * sin (1 * phi))%R (Qy_back s)))
    (Qx_for s) (Qy_for s)
    (add2 0 (wEta1 t * cos (1 * phi))%R (Qx_back_wEta s))
    (add2 0 (wEta1 t * sin (1 * phi))%R (Qy_back_wEta s))
    (Qx_for_wEta s) (Qy_for_wEta s).

(** Lines 293-299, 306-312, 319-325 and 332-338: the six [+=] of a forward
    block, on column [j] of the forward arrays. *)
Definition fill_for (j : nat) (t : Track) (s : Locals) : Locals :=
  let phi := VELOTRACK_PHI t in
  mkLocals (nPrimaryForTracks s) (nPrimaryBackTracks s)
    (nPrimaryForTracks_1 s) (nPrimaryForTracks_2 s) (nPrimaryForTracks_3 s)
    (Qx_back s) (Qy_back s)
    (add24 1 j (w2 * cos (2 * phi))%R
       (add24 0 j (w1 * cos (1 * phi))%R (Qx_for s)))
    (add24 1 j (w2 * sin (2 * phi))%R
       (add24 0 j (w1 * sin (1 * phi))%R (Qy_for s)))
    (Qx_back_wEta s) (Qy_back_wEta s)
    (add24 0 j (wEta1 t * cos (1 * phi))%R (Qx_for_wEta s))
    (add24 0 j (wEta1 t * sin (1 * phi))%R (Qy_for_wEta s)).

(** The conditions of the five region blocks, on the (already flipped)
    pseudorapidity. *)
Definition in_back (t : Track) : bool :=
  Qlt_bool (VELOTRACK_ETA t) (-0.5).
Definition in_for_1 (t : Track) : bool :=
  Qlt_bool 0.5 (VELOTRACK_ETA t) && Qle_bool (VELOTRACK_ETA t) 2.5.
Definition in_for_2 (t : Track) : bool :=
  Qlt_bool 2.5 (VELOTRACK_ETA t) && Qle_bool (VELOTRACK_ETA t) 4.0.
Definition in_for_3 (t : Track) : bool :=
  Qlt_bool 4.0 (VELOTRACK_ETA t) && Qle_bool (VELOTRACK_ETA t) 6.0.
Definition in_for_incl (t : Track) : bool :=
  Qlt_bool 0.5 (VELOTRACK_ETA t) && Qle_bool (VELOTRACK_ETA t) 6.0.

(** Lines 270-271. *)
Definition count_block (t : Track) (s : Locals) : Locals :=
  let s := if negb (is_backward t) then incr_For s else s in
  if is_backward t then incr_Back s else s.

(** Lines 279-289. *)
Definition back_block (t : Track) (s : Locals) : Locals :=
  if in_back t then fill_back t s else s.

(** Lines 292-302. *)
Definition for_1_block (t : Track) (s : Locals) : Locals :=
  if in_for_1 t then incr_For_1 (fill_for 0 t s) else s.

(** Lines 305-315. *)
Definition for_2_block (t : Track) (s : Locals) : Locals :=
  if in_for_2 t then incr_For_2 (fill_for 1 t s) else s.

(** Lines 318-328. *)
Definition for_3_block (t : Track) (s : Locals) : Locals :=
  if in_for_3 t then incr_For_3 (fill_for 2 t s) else s.

(** Lines 331-341: the inclusive block increments [nPrimaryForTracks]. *)
Definition for_incl_block (t : Track) (s : Locals) : Locals :=
  if in_for_incl t then incr_For (fill_for 3 t s) else s.

(** What follows the flip in the body of the track loop (lines 269-341),
    on the slot as the flip left it. *)
Definition accumulate (t : Track) (s : Locals) : Locals :=
  for_incl_block t
    (for_3_block t (for_2_block t (for_1_block t (back_block t (count_block t s))))).

(** One iteration of the track loop (lines 258-342): the new locals and the
    new content of slot [iTrack]. *)
Definition track_body (s : Locals) (t : Track) : Locals * Track :=
  if fails_quality t then (s, t)
  else let t' := flip t in (accumulate t' s, t').

(** The track loop over the slots [0 .. n-1], in order. *)
Fixpoint track_loop (ts : list Track) (s : Locals) : Locals * list Track :=
  match ts with
  | [] => (s, [])
  | t :: rest =>
      let '(s1, t1) := track_body s t in
      let '(s2, rest') := track_loop rest s1 in
      (s2, t1 :: rest')
  end.

(** The slots the loop visits, [0 <= iTrack < nVeloTracks]; [tracks] lists
    the slots of the buffers that [GetEntry] filled, and the loop is not
    followed beyond them. *)
Definition visited (e : Entry) : list Track :=
  firstn (Z.to_nat (nVeloTracks e)) (tracks e).

(** Lines 347-351: [true] when none of the five [continue] is taken. *)
Definition enough_tracks (s : Locals) : bool :=
  if nPrimaryForTracks s <? 5 then false
  else if nPrimaryBackTracks s <? 5 then false
  else if nPrimaryForTracks_1 s <? 5 then false
  else if nPrimaryForTracks_2 s <? 5 then false
  else if nPrimaryForTracks_3 s <? 5 then false
  else true.

(** Lines 356-387: the event object as filled before [outTree->Fill()]. *)
Definition fill_event (e : Entry) (s : Locals) : Event :=
  mkEvent (GPSTIME e) (EVENTNUMBER e) (PVX_0 e) (PVY_0 e) (PVZ_0 e)
    (RUNNUMBER e) (nBackTracks e) (nVeloClusters e) (nVeloTracks e)
    (nEcalClusters e) (ECalETot e) (nLongTracks e) (nVPClusters e)
    (Qx_back s) (Qy_back s) (Qx_for s) (Qy_for s)
    (Qx_back_wEta s) (Qy_back_wEta s) (Qx_for_wEta s) (Qy_for_wEta s)
    (mkArr4 (nPrimaryForTracks_1 s) (nPrimaryForTracks_2 s)
            (nPrimaryForTracks_3 s) (nPrimaryBackTracks s)).

(** The locals at the end of the track loop of an event. *)
Definition locals_of (e : Entry) : Locals :=
  fst (track_loop (visited e) init_locals).

(** The body of the event loop (lines 226-390): [None] when a [continue] is
    taken, otherwise the event handed to [outTree->Fill()]. *)
Definition process_event (e : Entry) : option Event :=
  if event_selection e then
    let s := locals_of e in
    if enough_tracks s then Some (fill_event e s) else None
  else None.

(** What the program has written so far: the entries of the output tree and
    the lines sent to [std::cerr]. *)
Record Output : Type := mkOutput {
  outTree : list Event;
  cerr : list string
}.

(** The event loop of one input file (lines 225-391). *)
Fixpoint event_loop (es : list Entry) (o : Output) : Output :=
  match es with
  | [] => o
  | e :: rest =>
      match process_event e with
      | None => event_loop rest o
      | Some ev => event_loop rest (mkOutput (outTree o ++ [ev]) (cerr o))
      end
  end.

(** *** Vocabulary of the statements below *)

(** The track passes the quality cut of line 261. *)
Definition passes (t : Track) : bool := negb (fails_quality t).

(** The five pseudorapidity regions, with the condition of the block that
    fills each one and the array column it is stored in. *)
Inductive Region : Type := Backward | Forward_1 | Forward_2 | Forward_3 | Forward_incl.

Definition in_region (r : Region) (t : Track) : bool :=
  match r with
  | Backward => in_back t
  | Forward_1 => in_for_1 t
  | Forward_2 => in_for_2 t
  | Forward_3 => in_for_3 t
  | Forward_incl => in_for_incl t
  end.

(** [cos_sum r n s] is [Qx_back[n]] or [Qx_for[n][j]] for the column [j] of
    region [r]; index [n] is 0 for the first harmonic and 1 for the second.
    Likewise for the three other families of arrays. *)
Definition cos_sum (r : Region) (n : nat) (s : Locals) : R :=
  match r with
  | Backward => get2 n (Qx_back s)
  | Forward_1 => get24 n 0 (Qx_for s)
  | Forward_2 => get24 n 1 (Qx_for s)
  | Forward_3 => get24 n 2 (Qx_for s)
  | Forward_incl => get24 n 3 (Qx_for s)
  end.

Definition sin_sum (r : Region) (n : nat) (s : Locals) : R :=
  match r with
  | Backward => get2 n (Qy_back s)
  | Forward_1 => get24 n 0 (Qy_for s)
  | Forward_2 => get24 n 1 (Qy_for s)
  | Forward_3 => get24 n 2 (Qy_for s)
  | Forward_incl => get24 n 3 (Qy_for s)
  end.

Definition cos_sum_wEta (r : Region) (n : nat) (s : Locals) : R :=
  match r with
  | Backward => get2 n (Qx_back_wEta s)
  | Forward_1 => get24 n 0 (Qx_for_wEta s)
  | Forward_2 => get24 n 1 (Qx_for_wEta s)
  | Forward_3 => get24 n 2 (Qx_for_wEta s)
  | Forward_incl => get24 n 3 (Qx_for_wEta s)
  end.

Definition sin_sum_wEta (r : Region) (n : nat) (s : Locals) : R :=
  match r with
  | Backward => get2 n (Qy_back_wEta s)
  | Forward_1 => get24 n 0 (Qy_for_wEta s)
  | Forward_2 => get24 n 1 (Qy_for_wEta s)
  | Forward_3 => get24 n 2 (Qy_for_wEta s)
  | Forward_incl => get24 n 3 (Qy_for_wEta s)
  end.

(** The eta-weighted sums of the second harmonic stay at zero. *)
Definition wEta_second_zero (s : Locals) : Prop :=
  forall r, cos_sum_wEta r 1 s = 0%R /\ sin_sum_wEta r 1 s = 0%R.

(** Column 3 of the four forward arrays is the sum of columns 0, 1, 2, for
    both harmonics. *)
Definition union_is_sum (s : Locals) : Prop :=
  forall (f : Region -> nat -> Locals -> R),
    f = cos_sum \/ f = sin_sum \/ f = cos_sum_wEta \/ f = sin_sum_wEta ->
    forall n, (n < 2)%nat ->
    f Forward_incl n s =
    (f Forward_1 n s + f Forward_2 n s + f Forward_3 n s)%R.

(** *** Sample inputs *)

Definition track_of (chi2 eta isback : Q) (phi : R) : Track :=
  mkTrack chi2 eta isback phi.

(** A backward-flagged track read as (eta = 1.0, phi = 0.2). *)
Definition sample_backward : Track := track_of 0 1.0 1 0.2%R.

(** Forward tracks in each of the three bins, and one failing the quality
    cut. *)
Definition sample_for_1 : Track := track_of 0 1.0 0 0.2%R.
Definition sample_for_2 : Track := track_of 0 3.0 0 0.2%R.
Definition sample_for_3 : Track := track_of 0 5.0 0 0.2%R.
Definition sample_bad : Track := track_of 2 3.0 0 0.2%R.

(** A backward-flagged track whose flipped pseudorapidity, -0.25, is not in
    the backward region. *)
Definition sample_central : Track := track_of 0 0.25 1 0.2%R.

Definition entry_of (ts : list Track) : Entry :=
  mkEntry 0%N 42%N 274156%N 0 0 0 20 1 0 (Z.of_nat (length ts)) 0 0 0 0 ts.

(** Five tracks in each of the four sub-events. *)
Definition sample_entry : Entry :=
  entry_of (repeat sample_backward 5 ++ repeat sample_for_1 5 ++
            repeat sample_for_2 5 ++ repeat sample_for_3 5).

(** The same with only four tracks in the second forward bin. *)
Definition sample_entry_4 : Entry :=
  entry_of (repeat sample_backward 5 ++ repeat sample_for_1 5 ++
            repeat sample_for_2 4 ++ [sample_bad] ++ repeat sample_for_3 5).


(** *** The input files *)

Import Stdlib.Strings.Ascii.

(** One entry of a directory listing: [GetName()] and [IsDirectory()]. *)
Record TSystemFile : Type := mkTSystemFile {
  GetName : string;
  IsDirectory : bool
}.

(** The fragment of [TRegexp] that line 101 uses: a sequence of atoms, each
    matching one character (a literal, escaped or not, or a range
    [[lo-hi]]), optionally anchored by [^] at the beginning and by [$] at
    the end. *)
Inductive RegAtom : Type :=
| Chr (c : Ascii.ascii)
| Rng (lo hi : Ascii.ascii).

Record TRegexp : Type := mkTRegexp {
  anchored_begin : bool;
  atoms : list RegAtom;
  anchored_end : bool
}.

Definition atom_matches (a : RegAtom) (c : Ascii.ascii) : bool :=
  match a with
  | Chr x => Ascii.eqb x c
  | Rng lo hi =>
      (Ascii.nat_of_ascii lo <=? Ascii.nat_of_ascii c)%nat &&
      (Ascii.nat_of_ascii c <=? Ascii.nat_of_ascii hi)%nat
  end.

(** The atoms match the first characters of [s]: what is left of [s]. *)
Fixpoint match_prefix (l : list RegAtom) (s : string) : option string :=
  match l with
  | [] => Some s
  | a :: rest =>
      match s with
      | EmptyString => None
      | String c s' =>
          if atom_matches a c then match_prefix rest s' else None
      end
  end.

(** The pattern matches at the beginning of [s]. *)
Definition match_at (p : TRegexp) (s : string) : bool :=
  match match_prefix (atoms p) s with
  | Some rest =>
      if anchored_end p
      then match rest with EmptyString => true | _ => false end
      else true
  | None => false
  end.

(** The pattern matches at some position of [s]. *)
Fixpoint match_anywhere (p : TRegexp) (s : string) : bool :=
  match_at p s ||
  match s with
  | EmptyString => false
  | String _ s' => match_anywhere p s'
  end.

(** [TString::Contains(const TRegexp&)]. *)
Definition Contains (s : string) (p : TRegexp) : bool :=
  if anchored_begin p then match_at p s else match_anywhere p s.

(** [TString::EndsWith], for a C string. *)
Definition EndsWith (s suffix : string) : bool :=
  let n := String.length s in
  let m := String.length suffix in
  (m <=? n)%nat && String.eqb (String.substring (n - m) m s) suffix.

Definition literal (s : string) : list RegAtom :=
  map Chr (String.list_ascii_of_string s).

(** Line 101: [^00274156_00000[0-4][0-9][0-9]_1\.tuple_pbpb2024\.root$]. *)
Definition pattern : TRegexp :=
  mkTRegexp true
    (literal "00274156_00000" ++
     [Rng "0"%char "4"%char; Rng "0"%char "9"%char; Rng "0"%char "9"%char] ++
     literal "_1" ++ [Chr "."%char] ++ literal "tuple_pbpb2024" ++
     [Chr "."%char] ++
     literal "root")
    true.

(** The test of line 104. *)
Definition selected (file : TSystemFile) : bool :=
  negb (IsDirectory file) && EndsWith (GetName file) ".root" &&
  Contains (GetName file) pattern.

(** What [GetFilteredRootFiles] returns and prints. *)
Record Listing : Type := mkListing {
  fileNames : list string;
  listing_cout : list string;
  listing_cerr : list string
}.

(** Lines 102-109, over the entries of the directory in the order [TIter]
    gives them. *)
Fixpoint scan (dirPath : string) (files : list TSystemFile) (l : Listing)
  : Listing :=
  match files with
  | [] => l
  | file :: rest =>
      if selected file then
        let fullpath := dirPath +:+ "/" +:+ GetName file in
        scan dirPath rest
          (mkListing (fileNames l ++ [fullpath])
                     (listing_cout l ++ ["Adding file: " +:+ fullpath])
                     (listing_cerr l))
      else scan dirPath rest l
  end.

(** Lines 87-113; the second argument is what [dir.GetListOfFiles()]
    returns, [None] for a null pointer. *)
Definition GetFilteredRootFiles (dirPath : string)
    (GetListOfFiles : option (list TSystemFile)) : Listing :=
  match GetListOfFiles with
  | None =>
      mkListing [] [] ["Could not open or read directory: " +:+ dirPath]
  | Some files => scan dirPath files (mkListing [] [] [])
  end.

(** What comes of lines 144-164 for one file name. *)
Inductive Opened : Type :=
| Zombie
| NoDirectory
| NoTree
| EventTuplePV (entries : list Entry).

Definition to_cerr (line : string) (o : Output) : Output :=
  mkOutput (outTree o) (cerr o ++ [line]).

(** The body of the loop over the input files (lines 144-395). *)
Definition file_body (fileName : string) (f : Opened) (o : Output) : Output :=
  match f with
  | Zombie => to_cerr ("Could not open file: " +:+ fileName) o
  | NoDirectory =>
      to_cerr ("Directory 'EventTuplePV' not found in file: " +:+ fileName) o
  | NoTree =>
      to_cerr ("Tree not found in directory 'EventTuplePV' in file: "
               +:+ fileName) o
  | EventTuplePV entries =>
      event_loop entries (to_cerr ("file: " +:+ fileName +:+ " opened") o)
  end.

(** Lines 142-396; [Open] stands for the file system. *)
Fixpoint file_loop (Open : string -> Opened) (names : list string)
    (o : Output) : Output :=
  match names with
  | [] => o
  | fileName :: rest =>
      file_loop Open rest (file_body fileName (Open fileName) o)
  end.

Definition eosDir : string :=
  "/eos/lhcb/grid/prod/lhcb/anaprod/lhcb/LHCb/Lead24/TUPLE_PBPB2024.ROOT/00274156/0000".

(** What a run of the macro leaves: the output tree and the two streams. *)
Record Run : Type := mkRun {
  run_tree : list Event;
  run_cerr : list string;
  run_cout : list string
}.

(** Lines 123-409. *)
Definition EventPlaneAnalysis
    (GetListOfFiles : option (list TSystemFile)) (Open : string -> Opened)
  : Run :=
  let l := GetFilteredRootFiles eosDir GetListOfFiles in
  let o := file_loop Open (fileNames l) (mkOutput [] (listing_cerr l)) in
  mkRun (outTree o) (cerr o)
        (listing_cout l ++ ["Done. Saved to event_plane_pbpb.root"]).

(** The name of segment [n] of the production, three decimal digits. *)
Definition digit (k : nat) : Ascii.ascii := Ascii.ascii_of_nat (48 + k).

Definition segment_name (n : nat) : string :=
  "00274156_00000" +:+
  String (digit (n / 100)) (String (digit (n / 10 mod 10))
    (String (digit (n mod 10)) "_1.tuple_pbpb2024.root")).

(** The entries of the files that can be read, in the order of the
    names. *)
Fixpoint readable_entries (Open : string -> Opened) (names : list string)
  : list Entry :=
  match names with
  | [] => []
  | fileName :: rest =>
      match Open fileName with
      | EventTuplePV entries => entries ++ readable_entries Open rest
      | _ => readable_entries Open rest
      end
  end.

(** A track whose flipped pseudorapidity is in none of the five regions. *)
Definition in_no_region (t : Track) : bool :=
  negb (in_back t) && negb (in_for_incl t).

(** What a track adds to a sum of region [r]: [g] of the flipped slot when
    the track passes the quality cut and falls in [r], and 0 otherwise. *)
Definition contribution (r : Region) (g : Track -> R) (t : Track) : R :=
  if passes t && in_region r (flip t) then g (flip t) else 0%R.

(** Twenty tracks none of which is left in the backward region by the
    flip: five flagged tracks of flipped pseudorapidity -0.25 and five
    forward tracks in each bin. *)
Definition sample_others : list Track :=
  repeat sample_central 5 ++ repeat sample_for_1 5 ++
  repeat sample_for_2 5 ++ repeat sample_for_3 5.

(** Three tracks flagged backward, read with pseudorapidity 1.0 at
    phi = 0, pi/2, pi, which the flip takes to the backward region,
    followed by the twenty tracks above. *)
Definition sample_three_flagged : Entry :=
  entry_of ([track_of 0 1.0 1 0%R; track_of 0 1.0 1 (PI / 2)%R;
             track_of 0 1.0 1 PI] ++ sample_others).

(** Three unflagged tracks of the backward region at phi = 0, pi/2, pi,
    followed by the twenty tracks above. *)
Definition sample_three_back : Entry :=
  entry_of ([track_of 0 (-1.0) 0 0%R; track_of 0 (-1.0) 0 (PI / 2)%R;
             track_of 0 (-1.0) 0 PI] ++ sample_others).

(** Line 125: the capacity of the branch buffers. *)
Definition maxTracks : Z := 10000.

End EPAnalysis.

(** ** GlobalPolarizationAnalysis_FilePrep.C *)

Module FilePrep.

(** The class [EventPlane] of the header: one entry of the event-plane tree,
    read through the pointer [ep]. *)
Record EventPlane : Type := mkEventPlane {
  ep_EVENTNUMBER : N;
  ep_RUNNUMBER : N;
  Psi1Full : R;
  Psi2Full : R;
  PsiBack : Arr2 R;
  PsiFor : Arr2 R;
  r1 : R;
  r2 : R
}.

(** [std::pair<UInt_t, ULong64_t>]: run number first, event number second.
    The map compares keys with [==] on the pair; the hash of lines 33-40
    only chooses the bucket. *)
Definition Key : Type := (N * N)%type.

(** The lines written to [std::cerr] by the two loops. *)
Inductive Diag : Type :=
| DuplicateEPKey (run event : N)
| NoEPMatch (run event : N) (nBack nVelo : Z).

(** The map of line 67 together with what the indexing loop has printed. *)
Record Index : Type := mkIndex {
  epIndexMap : gmap Key Z;
  index_cerr : list Diag
}.

(** Lines 69-74, for entry [iEP] of the event-plane tree. *)
Definition index_body (iEP : Z) (ep : EventPlane) (ix : Index) : Index :=
  let key := (ep_RUNNUMBER ep, ep_EVENTNUMBER ep) in
  let log :=
    match epIndexMap ix !! key with
    | Some _ =>
        index_cerr ix ++ [DuplicateEPKey (ep_RUNNUMBER ep) (ep_EVENTNUMBER ep)]
    | None => index_cerr ix
    end in
  mkIndex (<[key := iEP]> (epIndexMap ix)) log.

(** Lines 68-75: the entries from position [iEP] on. *)
Fixpoint index_loop (eps : list EventPlane) (iEP : Z) (ix : Index) : Index :=
  match eps with
  | [] => ix
  | ep :: rest => index_loop rest (iEP + 1) (index_body iEP ep ix)
  end.

Definition build_index (eps : list EventPlane) : Index :=
  index_loop eps 0 (mkIndex ∅ []).

(** [epIndexMap.find(key)], [None] for [epIndexMap.end()]. *)
Definition epIndexMap_find (ix : Index) (key : Key) : option Z := epIndexMap ix !! key.

(** One entry of [DecayTree] after [GetEntry]: the branches the loop
    reads.  Their declarations are elided in the source (line 115); the
    run and event numbers are taken unsigned as in the key of line 70, the
    three multiplicities as [Int_t], the other columns as finite
    floating-point values, and [PVZ_0] is slot 0 of the buffer [PVZ]. *)
Record Candidate : Type := mkCandidate {
  RUNNUMBER : N;
  EVENTNUMBER : N;
  nBackTracks : Z;
  nVeloTracks : Z;
  nPVs : Z;
  PVZ_0 : Q;
  L0_BPVFDCHI2 : Q;
  L0_BPVDIRA : Q;
  p_BPVIPCHI2 : Q;
  pi_BPVIPCHI2 : Q;
  p_PT : Q;
  pi_PT : Q;
  p_GHOSTPROB : Q;
  pi_GHOSTPROB : Q
}.

(** The thirteen [int cut_...] counters of lines 120-124, by name. *)
Inductive Cut : Type :=
| cut_nBackTracks | cut_nVeloTracks | cut_nPVs | cut_PVZ
| cut_L0_BPVIPCHI2 | cut_L0_BPVFDCHI2 | cut_L0_BPVDIRA
| cut_p_BPVIPCHI2 | cut_pi_BPVIPCHI2
| cut_p_PT | cut_pi_PT
| cut_p_GHOSTPROB | cut_pi_GHOSTPROB.

Definition Cut_eqb (x y : Cut) : bool :=
  match x, y with
  | cut_nBackTracks, cut_nBackTracks | cut_nVeloTracks, cut_nVeloTracks
  | cut_nPVs, cut_nPVs | cut_PVZ, cut_PVZ
  | cut_L0_BPVIPCHI2, cut_L0_BPVIPCHI2 | cut_L0_BPVFDCHI2, cut_L0_BPVFDCHI2
  | cut_L0_BPVDIRA, cut_L0_BPVDIRA
  | cut_p_BPVIPCHI2, cut_p_BPVIPCHI2 | cut_pi_BPVIPCHI2, cut_pi_BPVIPCHI2
  | cut_p_PT, cut_p_PT | cut_pi_PT, cut_pi_PT
  | cut_p_GHOSTPROB, cut_p_GHOSTPROB | cut_pi_GHOSTPROB, cut_pi_GHOSTPROB => true
  | _, _ => false
  end.

(** The values of the thirteen counters. *)
Definition CutCounters : Type := Cut -> Z.

(** [x++] on the counter named [x]. *)
Definition bump (x : Cut) (k : CutCounters) : CutCounters :=
  fun y => if Cut_eqb x y then k y + 1 else k y.

(** One line [if (cond) { x++; fail = true; }] of lines 138-149, on the
    counters and the flag [fail]. *)
Definition check (cond : bool) (x : Cut) (kf : CutCounters * bool)
  : CutCounters * bool :=
  if cond then (bump x (fst kf), true) else kf.

(** Lines 137-149. *)
Definition apply_cuts (c : Candidate) (k : CutCounters) : CutCounters * bool :=
  let kf := (k, false) in
  let kf := check (nBackTracks c <? 10) cut_nBackTracks kf in
  let kf := check (nVeloTracks c <? 15) cut_nVeloTracks kf in
  let kf := check (negb (nPVs c =? 1)) cut_nPVs kf in
  let kf := check (Qlt_bool (PVZ_0 c) (-100) || Qlt_bool 100 (PVZ_0 c))
                  cut_PVZ kf in
  let kf := check (Qlt_bool (L0_BPVFDCHI2 c) 130) cut_L0_BPVFDCHI2 kf in
  let kf := check (Qlt_bool (L0_BPVDIRA c) 0.9999) cut_L0_BPVDIRA kf in
  let kf := check (Qlt_bool (p_BPVIPCHI2 c) 25) cut_p_BPVIPCHI2 kf in
  let kf := check (Qlt_bool (pi_BPVIPCHI2 c) 25) cut_pi_BPVIPCHI2 kf in
  let kf := check (Qlt_bool (p_PT c) 500) cut_p_PT kf in
  let kf := check (Qlt_bool (pi_PT c) 200) cut_pi_PT kf in
  let kf := check (Qlt_bool 0.1 (p_GHOSTPROB c)) cut_p_GHOSTPROB kf in
  let kf := check (Qlt_bool 0.1 (pi_GHOSTPROB c)) cut_pi_GHOSTPROB kf in
  kf.

(** The condition printed next to each counter in the cut breakdown of the
    summary (lines 188-213); [cut_L0_BPVIPCHI2] is declared and never
    printed. *)
Definition printed_condition (x : Cut) (c : Candidate) : bool :=
  match x with
  | cut_nBackTracks => nBackTracks c <? 10
  | cut_nVeloTracks => nVeloTracks c <? 15
  | cut_nPVs => negb (nPVs c =? 1)
  | cut_PVZ => Qlt_bool 100 (Qabs (PVZ_0 c))
  | cut_L0_BPVIPCHI2 => false
  | cut_L0_BPVFDCHI2 => Qlt_bool (L0_BPVFDCHI2 c) 130
  | cut_L0_BPVDIRA => Qlt_bool (L0_BPVDIRA c) 0.9999
  | cut_p_BPVIPCHI2 => Qlt_bool (p_BPVIPCHI2 c) 25
  | cut_pi_BPVIPCHI2 => Qlt_bool (pi_BPVIPCHI2 c) 25
  | cut_p_PT => Qlt_bool (p_PT c) 500
  | cut_pi_PT => Qlt_bool (pi_PT c) 200
  | cut_p_GHOSTPROB => Qlt_bool 0.1 (p_GHOSTPROB c)
  | cut_pi_GHOSTPROB => Qlt_bool 0.1 (pi_GHOSTPROB c)
  end.

(** The state of the candidate loop: the counters of lines 119-124, the set
    of line 45, and what the loop has done so far to the outside: the keys
    passed to [epIndexMap.find] (line 158), the lines sent to [std::cerr],
    and, for each [outTree->Fill()], the event-plane entry loaded just
    before it (line 168). *)
Record Stats : Type := mkStats {
  noMatch : Z;
  totalLambdas : Z;
  failedCuts : Z;
  saved : Z;
  cuts : CutCounters;
  runNumbersInLambda : gset N;
  lookups : list Key;
  match_cerr : list Diag;
  filled : list Z
}.

(** Lines 119-124 and 45. *)
Definition init_stats : Stats :=
  mkStats 0 0 0 0 (fun _ => 0) ∅ [] [] [].

(** The body of the candidate loop (lines 130-172); the progress line sent
    to [std::cout] every 100000 candidates is left out. *)
Definition candidate_body (ix : Index) (c : Candidate) (s : Stats) : Stats :=
  let total := totalLambdas s + 1 in
  let runs := {[RUNNUMBER c]} ∪ runNumbersInLambda s in
  let '(k, fail) := apply_cuts c (cuts s) in
  if fail then
    mkStats (noMatch s) total (failedCuts s + 1) (saved s) k runs
            (lookups s) (match_cerr s) (filled s)
  else
    let key := (RUNNUMBER c, EVENTNUMBER c) in
    let looked := lookups s ++ [key] in
    match epIndexMap_find ix key with
    | None =>
        mkStats (noMatch s + 1) total (failedCuts s) (saved s) k runs looked
          (match_cerr s ++
             [NoEPMatch (RUNNUMBER c) (EVENTNUMBER c)
                        (nBackTracks c) (nVeloTracks c)])
          (filled s)
    | Some iEP =>
        mkStats (noMatch s) total (failedCuts s) (saved s + 1) k runs looked
          (match_cerr s) (filled s ++ [iEP])
    end.

(** Lines 129-173. *)
Fixpoint candidate_loop (ix : Index) (cs : list Candidate) (s : Stats) : Stats :=
  match cs with
  | [] => s
  | c :: rest => candidate_loop ix rest (candidate_body ix c s)
  end.

(** The macro after both input files are open: index the event-plane tree,
    then run the candidate loop. *)
Definition GlobalPolarizationAnalysis_FilePrep
    (eps : list EventPlane) (cs : list Candidate) : Index * Stats :=
  let ix := build_index eps in
  (ix, candidate_loop ix cs init_stats).

(** *** Vocabulary of the statements below *)

(** The key under which an entry of the event-plane tree is indexed. *)
Definition key_of (ep : EventPlane) : Key :=
  (ep_RUNNUMBER ep, ep_EVENTNUMBER ep).

(** The position of the last entry with a given key, positions counted
    from [iEP]. *)
Fixpoint last_position (key : Key) (eps : list EventPlane) (iEP : Z)
  : option Z :=
  match eps with
  | [] => None
  | ep :: rest =>
      match last_position key rest (iEP + 1) with
      | Some j => Some j
      | None => if decide (key_of ep = key) then Some iEP else None
      end
  end.

(** One warning for each entry whose key was already met. *)
Fixpoint duplicate_warnings (seen : gset Key) (eps : list EventPlane)
  : list Diag :=
  match eps with
  | [] => []
  | ep :: rest =>
      (if decide (key_of ep ∈ seen)
       then [DuplicateEPKey (ep_RUNNUMBER ep) (ep_EVENTNUMBER ep)]
       else [])
      ++ duplicate_warnings ({[key_of ep]} ∪ seen) rest
  end.

(** The twelve counters that the loop increments. *)
Definition twelve_cuts : list Cut :=
  [cut_nBackTracks; cut_nVeloTracks; cut_nPVs; cut_PVZ;
   cut_L0_BPVFDCHI2; cut_L0_BPVDIRA; cut_p_BPVIPCHI2; cut_pi_BPVIPCHI2;
   cut_p_PT; cut_pi_PT; cut_p_GHOSTPROB; cut_pi_GHOSTPROB].

(** None of the twelve printed conditions holds of the candidate. *)
Definition passes_all_cuts (c : Candidate) : bool :=
  forallb (fun x => negb (printed_condition x c)) twelve_cuts.

Definition candidate_key (c : Candidate) : Key := (RUNNUMBER c, EVENTNUMBER c).

(** The candidate passes the cuts and its key is not in the index. *)
Definition unmatched (ix : Index) (c : Candidate) : bool :=
  passes_all_cuts c &&
  match epIndexMap_find ix (candidate_key c) with
  | None => true
  | Some _ => false
  end.

(** The candidate passes the cuts and its key is in the index. *)
Definition matched (ix : Index) (c : Candidate) : bool :=
  passes_all_cuts c &&
  match epIndexMap_find ix (candidate_key c) with
  | None => false
  | Some _ => true
  end.

(** The three totals add up to the number of candidates seen. *)
Definition totals_agree (s : Stats) : Prop :=
  totalLambdas s = failedCuts s + noMatch s + saved s.

(** *** Sample inputs *)

(** Two entries of the event-plane tree with the key (run 1, event 1). *)
Definition sample_ep_first : EventPlane :=
  mkEventPlane 1%N 1%N 0%R 0%R zero2 zero2 1%R 1%R.
Definition sample_ep_second : EventPlane :=
  mkEventPlane 1%N 1%N 1%R 1%R zero2 zero2 1%R 1%R.

(** An entry of the event-plane tree for (run 274156, event 42). *)
Definition sample_ep_matching : EventPlane :=
  mkEventPlane 42%N 274156%N 0%R 0%R zero2 zero2 1%R 1%R.

(** A candidate of (run 274156, event 42) that passes every cut. *)
Definition sample_candidate : Candidate :=
  mkCandidate 274156%N 42%N 20 30 1 0 200 1 30 30 600 300 0 0.

(** The same candidate with [p_PT = 499]. *)
Definition sample_low_pt : Candidate :=
  mkCandidate 274156%N 42%N 20 30 1 0 200 1 30 30 499 300 0 0.

(** *** The hash of a key *)

(** Lines 33-40: the hash of a pair, from the two [std::hash] of the
    standard library ([hash_UInt], [hash_ULong64], which the source does
    not fix); [std::size_t] has 64 bits, so the shift drops the top bit. *)
Definition hash_pair (hash_UInt hash_ULong64 : N -> N) (p : Key) : N :=
  N.lxor (hash_UInt (fst p))
         (N.shiftl (hash_ULong64 (snd p)) 1 mod 2 ^ 64)%N.

(** *** The macro and its input files *)

(** What comes of lines 49-60 for the event-plane file. *)
Inductive EPFile : Type :=
| EP_zombie
| EP_no_tree
| EventPlaneTuple (eps : list EventPlane).

(** What comes of lines 94-112 for the file of Lambda candidates. *)
Inductive LambdaFile : Type :=
| L0_zombie
| L0_no_directory
| L0_no_tree
| DecayTree (cs : list Candidate).

(** The lines the macro sends to [std::cerr]. *)
Inductive Message : Type :=
| CouldNotOpenEPFile
| CannotFindEventPlaneTuple
| FailedToCreateOutputFile
| CouldNotOpenInputFile (fileName : string)
| DirectoryL0TupleNotFound
| TreeDecayTreeNotFound
| Diagnostic (d : Diag).

(** What a call of the macro leaves: the lines on [std::cerr], the number
    printed by line 76, whether the output file was created (line 80),
    the counters printed by the summary (lines 178-213), and whether the
    closing message of line 228 was printed. *)
Record Report : Type := mkReport {
  report_cerr : list Message;
  indexed : option nat;
  output_created : bool;
  summary : option Stats;
  completed : bool
}.

(** Lines 44-229; [outFile_ok] tells whether the output file could be
    created. *)
Definition FilePrep_macro (ep : EPFile) (outFile_ok : bool)
    (fileName : string) (input : LambdaFile) : Report :=
  match ep with
  | EP_zombie => mkReport [CouldNotOpenEPFile] None false None false
  | EP_no_tree => mkReport [CannotFindEventPlaneTuple] None false None false
  | EventPlaneTuple eps =>
      let ix := build_index eps in
      let warnings := map Diagnostic (index_cerr ix) in
      let n := Some (size (epIndexMap ix)) in
      if negb outFile_ok then
        mkReport (warnings ++ [FailedToCreateOutputFile]) n false None false
      else
        match input with
        | L0_zombie =>
            mkReport (warnings ++ [CouldNotOpenInputFile fileName])
                     n true None false
        | L0_no_directory =>
            mkReport (warnings ++ [DirectoryL0TupleNotFound]) n true None false
        | L0_no_tree =>
            mkReport (warnings ++ [TreeDecayTreeNotFound]) n true None false
        | DecayTree cs =>
            let s := candidate_loop ix cs init_stats in
            mkReport (warnings ++ map Diagnostic (match_cerr s))
                     n true (Some s) true
        end
  end.

(** *** More vocabulary *)

(** The event-plane entry that a candidate is paired with, if any. *)
Definition pairing (ix : Index) (c : Candidate) : option Z :=
  if passes_all_cuts c then epIndexMap_find ix (candidate_key c) else None.

(** The sum of the twelve cut counters. *)
Definition cut_sum (k : CutCounters) : Z :=
  fold_right Z.add 0 (map k twelve_cuts).

(** The line printed for a candidate without event plane. *)
Definition no_match_line (c : Candidate) : Diag :=
  NoEPMatch (RUNNUMBER c) (EVENTNUMBER c) (nBackTracks c) (nVeloTracks c).

(** The four event-level columns of a candidate, as an entry of the tree
    read by [EventPlaneAnalysis]. *)
Definition event_of (c : Candidate) : EPAnalysis.Entry :=
  EPAnalysis.mkEntry 0%N (EVENTNUMBER c) (RUNNUMBER c) 0 0 (PVZ_0 c)
    (nBackTracks c) (nPVs c) 0 (nVeloTracks c) 0 0 0 0 [].

End FilePrep.

(** * Shared lemmas *)

Lemma count_if_app {A : Type} (p : A -> bool) (l1 l2 : list A) :
  count_if p (l1 ++ l2) = count_if p l1 + count_if p l2.
Proof.
  induction l1 as [|x l1 IH]; simpl; [reflexivity | rewrite IH; lia].
Qed.

Lemma count_if_bounds {A : Type} (p : A -> bool) (l : list A) :
  0 <= count_if p l <= Z.of_nat (length l).
Proof.
  induction l as [|x l IH]; simpl length; simpl count_if; [lia|].
  destruct (p x); lia.
Qed.

(** Comparisons of rationals, as propositions. *)
Lemma Qlt_bool_true (x y : Q) : Qlt_bool x y = true <-> (x < y)%Q.
Proof.
  unfold Qlt_bool. rewrite negb_true_iff.
  split.
  - intros H. apply Qnot_le_lt. intros Hle.
    apply Qle_bool_iff in Hle. congruence.
  - intros H. destruct (Qle_bool y x) eqn:E; [|reflexivity].
    apply Qle_bool_iff in E. exfalso. exact (Qlt_not_le _ _ H E).
Qed.

Lemma Qlt_bool_false (x y : Q) : Qlt_bool x y = false <-> (y <= x)%Q.
Proof.
  unfold Qlt_bool. rewrite negb_false_iff. apply Qle_bool_iff.
Qed.

Lemma Qle_bool_false (x y : Q) : Qle_bool x y = false <-> (y < x)%Q.
Proof.
  split.
  - intros H. apply Qnot_le_lt. intros Hle.
    apply Qle_bool_iff in Hle. congruence.
  - intros H. destruct (Qle_bool x y) eqn:E; [|reflexivity].
    apply Qle_bool_iff in E. exfalso. exact (Qlt_not_le _ _ H E).
Qed.

(** * Properties of EventPlaneAnalysis.cpp *)

Section EventPlaneAnalysisFacts.
Import EPAnalysis.

(** The flip keeps the flag and the quality column. *)
Lemma is_backward_flip (t : Track) : is_backward (flip t) = is_backward t.
Proof. unfold flip. destruct (is_backward t) eqn:E; exact E. Qed.

Lemma fails_quality_flip (t : Track) : fails_quality (flip t) = fails_quality t.
Proof. unfold flip. destruct (is_backward t); reflexivity. Qed.

Lemma track_loop_cons (t : Track) (ts : list Track) (s : Locals) :
  fst (track_loop (t :: ts) s) = fst (track_loop ts (fst (track_body s t))).
Proof.
  simpl. destruct (track_body s t) as [s1 t1].
  destruct (track_loop ts s1) as [s2 r] eqn:E. simpl. rewrite E. reflexivity.
Qed.

(** A counter that each body increases by one when [p] holds of the slot
    ends [count_if p] higher. *)
Lemma loop_counter (f : Locals -> Z) (p : Track -> bool) :
  (forall s t, f (fst (track_body s t)) = f s + (if p t then 1 else 0)) ->
  forall ts s, f (fst (track_loop ts s)) = f s + count_if p ts.
Proof.
  intros Hstep ts. induction ts as [|t ts IH]; intros s.
  - simpl. lia.
  - rewrite track_loop_cons, IH, Hstep. simpl. lia.
Qed.

(** A property of the locals kept by every body holds after the loop. *)
Lemma loop_invariant (P : Locals -> Prop) :
  (forall s t, P s -> P (fst (track_body s t))) ->
  forall ts s, P s -> P (fst (track_loop ts s)).
Proof.
  intros Hstep ts. induction ts as [|t ts IH]; intros s Hs.
  - exact Hs.
  - rewrite track_loop_cons. apply IH, Hstep, Hs.
Qed.

(** Case analysis on the conditions of one loop body. *)
Ltac body_cases t :=
  unfold track_body, passes;
  destruct (fails_quality t) eqn:?; simpl;
  [ | unfold accumulate, for_incl_block, for_3_block, for_2_block,
        for_1_block, back_block, count_block;
      rewrite ?is_backward_flip;
      destruct (is_backward t) eqn:?, (in_back (flip t)) eqn:?,
               (in_for_1 (flip t)) eqn:?, (in_for_2 (flip t)) eqn:?,
               (in_for_3 (flip t)) eqn:?, (in_for_incl (flip t)) eqn:?;
      simpl ].

(** The effect of one body on each of the five multiplicities. *)
Lemma body_nPrimaryForTracks (s : Locals) (t : Track) :
  nPrimaryForTracks (fst (track_body s t)) =
  nPrimaryForTracks s
  + (if passes t && negb (is_backward t) then 1 else 0)
  + (if passes t && in_for_incl (flip t) then 1 else 0).
Proof. body_cases t; lia. Qed.

Lemma body_nPrimaryBackTracks (s : Locals) (t : Track) :
  nPrimaryBackTracks (fst (track_body s t)) =
  nPrimaryBackTracks s + (if passes t && is_backward t then 1 else 0).
Proof. body_cases t; lia. Qed.

Lemma body_nPrimaryForTracks_1 (s : Locals) (t : Track) :
  nPrimaryForTracks_1 (fst (track_body s t)) =
  nPrimaryForTracks_1 s + (if passes t && in_for_1 (flip t) then 1 else 0).
Proof. body_cases t; lia. Qed.

Lemma body_nPrimaryForTracks_2 (s : Locals) (t : Track) :
  nPrimaryForTracks_2 (fst (track_body s t)) =
  nPrimaryForTracks_2 s + (if passes t && in_for_2 (flip t) then 1 else 0).
Proof. body_cases t; lia. Qed.

Lemma body_nPrimaryForTracks_3 (s : Locals) (t : Track) :
  nPrimaryForTracks_3 (fst (track_body s t)) =
  nPrimaryForTracks_3 s + (if passes t && in_for_3 (flip t) then 1 else 0).
Proof. body_cases t; lia. Qed.

(** The five multiplicities at the end of the track loop. *)
Lemma loop_nPrimaryForTracks (ts : list Track) (s : Locals) :
  nPrimaryForTracks (fst (track_loop ts s)) =
  nPrimaryForTracks s
  + count_if (fun t => passes t && negb (is_backward t)) ts
  + count_if (fun t => passes t && in_for_incl (flip t)) ts.
Proof.
  revert s. induction ts as [|t ts IH]; intros s.
  - simpl. lia.
  - rewrite track_loop_cons, IH, body_nPrimaryForTracks. simpl. lia.
Qed.

Lemma loop_nPrimaryBackTracks (ts : list Track) (s : Locals) :
  nPrimaryBackTracks (fst (track_loop ts s)) =
  nPrimaryBackTracks s + count_if (fun t => passes t && is_backward t) ts.
Proof. apply (loop_counter nPrimaryBackTracks), body_nPrimaryBackTracks. Qed.

Lemma loop_nPrimaryForTracks_1 (ts : list Track) (s : Locals) :
  nPrimaryForTracks_1 (fst (track_loop ts s)) =
  nPrimaryForTracks_1 s + count_if (fun t => passes t && in_for_1 (flip t)) ts.
Proof. apply (loop_counter nPrimaryForTracks_1), body_nPrimaryForTracks_1. Qed.

Lemma loop_nPrimaryForTracks_2 (ts : list Track) (s : Locals) :
  nPrimaryForTracks_2 (fst (track_loop ts s)) =
  nPrimaryForTracks_2 s + count_if (fun t => passes t && in_for_2 (flip t)) ts.
Proof. apply (loop_counter nPrimaryForTracks_2), body_nPrimaryForTracks_2. Qed.

Lemma loop_nPrimaryForTracks_3 (ts : list Track) (s : Locals) :
  nPrimaryForTracks_3 (fst (track_loop ts s)) =
  nPrimaryForTracks_3 s + count_if (fun t => passes t && in_for_3 (flip t)) ts.
Proof. apply (loop_counter nPrimaryForTracks_3), body_nPrimaryForTracks_3. Qed.

(** No multiplicity exceeds twice the number of visited slots, itself at
    most the capacity [maxTracks = 10000] of the buffers: the [int]
    counters of the source do not overflow. *)
Lemma counters_bounded (e : Entry) :
  let s := locals_of e in
  let n := Z.of_nat (length (visited e)) in
  0 <= nPrimaryForTracks s <= 2 * n /\
  0 <= nPrimaryBackTracks s <= n /\
  0 <= nPrimaryForTracks_1 s <= n /\
  0 <= nPrimaryForTracks_2 s <= n /\
  0 <= nPrimaryForTracks_3 s <= n.
Proof.
  unfold locals_of. cbv zeta.
  rewrite loop_nPrimaryForTracks, loop_nPrimaryBackTracks,
    loop_nPrimaryForTracks_1, loop_nPrimaryForTracks_2,
    loop_nPrimaryForTracks_3.
  simpl.
  pose proof (count_if_bounds (fun t => passes t && negb (is_backward t)) (visited e)).
  pose proof (count_if_bounds (fun t => passes t && in_for_incl (flip t)) (visited e)).
  pose proof (count_if_bounds (fun t => passes t && is_backward t) (visited e)).
  pose proof (count_if_bounds (fun t => passes t && in_for_1 (flip t)) (visited e)).
  pose proof (count_if_bounds (fun t => passes t && in_for_2 (flip t)) (visited e)).
  pose proof (count_if_bounds (fun t => passes t && in_for_3 (flip t)) (visited e)).
  lia.
Qed.

(** What [process_event] returns, by the two tests it makes. *)
Lemma process_event_Some (e : Entry) (ev : Event) :
  process_event e = Some ev <->
  event_selection e = true /\ enough_tracks (locals_of e) = true /\
  ev = fill_event e (locals_of e).
Proof.
  unfold process_event.
  destruct (event_selection e); [|split; [discriminate | intros [? _]; discriminate]].
  cbv zeta. destruct (enough_tracks (locals_of e)).
  - split; [intros [= <-]; auto | intros (_ & _ & ->); reflexivity].
  - split; [discriminate | intros (_ & ? & _); discriminate].
Qed.

Lemma enough_tracks_true (s : Locals) :
  enough_tracks s = true <->
  5 <= nPrimaryForTracks s /\ 5 <= nPrimaryBackTracks s /\
  5 <= nPrimaryForTracks_1 s /\ 5 <= nPrimaryForTracks_2 s /\
  5 <= nPrimaryForTracks_3 s.
Proof.
  unfold enough_tracks.
  destruct (Z.ltb_spec (nPrimaryForTracks s) 5);
  destruct (Z.ltb_spec (nPrimaryBackTracks s) 5);
  destruct (Z.ltb_spec (nPrimaryForTracks_1 s) 5);
  destruct (Z.ltb_spec (nPrimaryForTracks_2 s) 5);
  destruct (Z.ltb_spec (nPrimaryForTracks_3 s) 5);
  split; try discriminate; try reflexivity; try lia; auto.
Qed.

(** ** The forward counter *)



(** ** The event selection *)

(** C4: the event selection rejects an entry exactly when the number of
    primary vertices is not 1, or fewer than 10 backward tracks are
    recorded, or PVZ[0] is below -100 or above 100, or fewer than 15 VELO
    tracks are recorded; an entry that is not rejected goes through the
    track loop and the multiplicity requirement. *)
Theorem event_selection_rejects_iff (e : Entry) :
  (event_selection e = false <->
   nPVs e <> 1 \/ nBackTracks e < 10 \/
   ((PVZ_0 e < -100)%Q \/ (100 < PVZ_0 e)%Q) \/ nVeloTracks e < 15) /\
  (event_selection e = true ->
   process_event e =
   if enough_tracks (locals_of e) then Some (fill_event e (locals_of e))
   else None).
Proof.
  split.
  - unfold event_selection.
    destruct (Z.eqb_spec (nPVs e) 1) as [Hpv|Hpv]; simpl;
      [|split; [auto | reflexivity]].
    destruct (Z.ltb_spec (nBackTracks e) 10) as [Hb|Hb];
      [split; [auto | reflexivity]|].
    destruct (Qlt_bool (PVZ_0 e) (-100)) eqn:Hlo; simpl.
    { apply Qlt_bool_true in Hlo. split; [auto | reflexivity]. }
    destruct (Qlt_bool 100 (PVZ_0 e)) eqn:Hhi.
    { apply Qlt_bool_true in Hhi. split; [auto | reflexivity]. }
    apply Qlt_bool_false in Hlo, Hhi.
    destruct (Z.ltb_spec (nVeloTracks e) 15) as [Hv|Hv];
      [split; [auto | reflexivity]|].
    split; [discriminate|].
    intros [H | [H | [[H | H] | H]]]; try lia; exfalso;
      [exact (Qlt_not_le _ _ H Hlo) | exact (Qlt_not_le _ _ H Hhi)].
  - intros H. unfold process_event. rewrite H. reflexivity.
Qed.

Lemma event_selection_rejects_iff_witness :
  event_selection sample_entry = true /\
  process_event sample_entry =
  if enough_tracks (locals_of sample_entry)
  then Some (fill_event sample_entry (locals_of sample_entry)) else None.
Proof.
  split; [reflexivity|].
  apply (proj2 (event_selection_rejects_iff sample_entry)). reflexivity.
Defined.

(** ** The backward flip *)

(** Multiplying a rational by -1 gives its opposite, numerator and
    denominator alike. *)
Lemma Qmult_minus_one (q : Q) : (q * -1)%Q = (- q)%Q.
Proof.
  destruct q as [n d]. unfold Qmult, Qopp. simpl.
  f_equal; [lia | apply Pos.mul_1_r].
Qed.

Lemma flip_backward (t : Track) :
  is_backward t = true ->
  flip t = mkTrack (VELOTRACK_BIPCHI2 t) (- VELOTRACK_ETA t)%Q
             (VELOTRACK_ISBACKWARD t) (VELOTRACK_PHI t + PI)%R.
Proof. intros H. unfold flip. rewrite H, Qmult_minus_one. reflexivity. Qed.

Lemma flip_forward (t : Track) : is_backward t = false -> flip t = t.
Proof. intros H. unfold flip. rewrite H. reflexivity. Qed.

(** The slots as the track loop leaves them. *)
Lemma track_loop_slots (ts : list Track) (s : Locals) :
  snd (track_loop ts s) =
  map (fun t => if fails_quality t then t else flip t) ts.
Proof.
  revert s. induction ts as [|t ts IH]; intros s; simpl; [reflexivity|].
  destruct (track_body s t) as [s1 t1] eqn:E1.
  destruct (track_loop ts s1) as [s2 r] eqn:E2. simpl.
  specialize (IH s1). rewrite E2 in IH. simpl in IH. rewrite IH.
  f_equal. unfold track_body in E1.
  destruct (fails_quality t); inversion E1; reflexivity.
Qed.

(** C5: a quality-passing track flagged backward has its pseudorapidity
    negated and pi added to its azimuthal angle, with no reduction of the
    angle, before the region blocks read it; a quality-passing track that is
    not flagged is read unchanged; over the whole loop every slot is
    rewritten by at most one application of the flip; the backward-flagged
    track read as (eta = 1.0, phi = 0.2) is classified, as a backward-region
    track, with (eta = -1.0, phi = 0.2 + pi). *)
Theorem backward_flip_once :
  (forall s t, fails_quality t = false -> is_backward t = true ->
     snd (track_body s t) =
       mkTrack (VELOTRACK_BIPCHI2 t) (- VELOTRACK_ETA t)%Q
         (VELOTRACK_ISBACKWARD t) (VELOTRACK_PHI t + PI)%R /\
     fst (track_body s t) = accumulate (snd (track_body s t)) s) /\
  (forall s t, fails_quality t = false -> is_backward t = false ->
     snd (track_body s t) = t /\ fst (track_body s t) = accumulate t s) /\
  (forall ts s,
     snd (track_loop ts s) =
     map (fun t => if fails_quality t then t else flip t) ts) /\
  (forall s,
     snd (track_body s sample_backward) = track_of 0 (-1.0) 1 (0.2 + PI)%R /\
     fst (track_body s sample_backward) =
       accumulate (track_of 0 (-1.0) 1 (0.2 + PI)%R) s /\
     in_region Backward (track_of 0 (-1.0) 1 (0.2 + PI)%R) = true).
Proof.
  split; [|split; [|split]].
  - intros s t Hq Hb. unfold track_body. rewrite Hq. simpl.
    rewrite (flip_backward t Hb). split; reflexivity.
  - intros s t Hq Hb. unfold track_body. rewrite Hq. simpl.
    rewrite (flip_forward t Hb). split; reflexivity.
  - exact track_loop_slots.
  - intros s. split; [reflexivity | split; reflexivity].
Qed.

Lemma backward_flip_once_witness :
  fails_quality sample_backward = false /\
  is_backward sample_backward = true /\
  snd (track_body init_locals sample_backward) =
    mkTrack (VELOTRACK_BIPCHI2 sample_backward)
      (- VELOTRACK_ETA sample_backward)%Q
      (VELOTRACK_ISBACKWARD sample_backward)
      (VELOTRACK_PHI sample_backward + PI)%R.
Proof.
  split; [reflexivity | split; [reflexivity|]].
  apply (proj1 backward_flip_once init_locals sample_backward);
    reflexivity.
Defined.

(** ** The harmonic sums *)

(** The effect of one body on the eight sums of a region: [hit v] is [v]
    when the track passes the quality cut and its flipped pseudorapidity is
    in the region, and 0 otherwise. *)
Lemma body_sums (s : Locals) (t : Track) (r : Region) :
  let t' := flip t in
  let s' := fst (track_body s t) in
  let hit (v : R) := if passes t && in_region r t' then v else 0%R in
  cos_sum r 0 s' = (cos_sum r 0 s + hit (cos (1 * VELOTRACK_PHI t')))%R /\
  cos_sum r 1 s' = (cos_sum r 1 s + hit (cos (2 * VELOTRACK_PHI t')))%R /\
  sin_sum r 0 s' = (sin_sum r 0 s + hit (sin (1 * VELOTRACK_PHI t')))%R /\
  sin_sum r 1 s' = (sin_sum r 1 s + hit (sin (2 * VELOTRACK_PHI t')))%R /\
  cos_sum_wEta r 0 s' =
    (cos_sum_wEta r 0 s
     + hit (Q2R (VELOTRACK_ETA t') * cos (1 * VELOTRACK_PHI t')))%R /\
  sin_sum_wEta r 0 s' =
    (sin_sum_wEta r 0 s
     + hit (Q2R (VELOTRACK_ETA t') * sin (1 * VELOTRACK_PHI t')))%R /\
  cos_sum_wEta r 1 s' = cos_sum_wEta r 1 s /\
  sin_sum_wEta r 1 s' = sin_sum_wEta r 1 s.
Proof.
  cbv zeta. destruct r; unfold in_region;
    body_cases t;
    unfold cos_sum, sin_sum, cos_sum_wEta, sin_sum_wEta, get24, w1, w2, wEta1;
    simpl; repeat split; lra.
Qed.

Lemma wEta_second_zero_loop (ts : list Track) :
  wEta_second_zero (fst (track_loop ts init_locals)).
Proof.
  apply (loop_invariant wEta_second_zero).
  - intros s t Hs r.
    destruct (body_sums s t r) as (_ & _ & _ & _ & _ & _ & Hc & Hs').
    rewrite Hc, Hs'. apply Hs.
  - intros r. destruct r; split; reflexivity.
Qed.

(** C2: for a quality-passing track whose flipped pseudorapidity is in
    region [r] and whose final angle is phi, the body adds cos(1 phi) and
    cos(2 phi) to the two cosine sums of [r], sin(1 phi) and sin(2 phi) to
    its two sine sums, eta cos(1 phi) and eta sin(1 phi) to its eta-weighted
    sums of the first harmonic, and leaves its eta-weighted sums of the
    second harmonic as they are; the sums of a region the track is not in
    are unchanged; in every event written to the output tree the
    eta-weighted components of the second harmonic are zero. *)
Theorem harmonic_accumulation :
  (forall s t r, fails_quality t = false -> in_region r (flip t) = true ->
     let phi := VELOTRACK_PHI (flip t) in
     let eta := Q2R (VELOTRACK_ETA (flip t)) in
     let s' := fst (track_body s t) in
     cos_sum r 0 s' = (cos_sum r 0 s + cos (1 * phi))%R /\
     cos_sum r 1 s' = (cos_sum r 1 s + cos (2 * phi))%R /\
     sin_sum r 0 s' = (sin_sum r 0 s + sin (1 * phi))%R /\
     sin_sum r 1 s' = (sin_sum r 1 s + sin (2 * phi))%R /\
     cos_sum_wEta r 0 s' = (cos_sum_wEta r 0 s + eta * cos (1 * phi))%R /\
     sin_sum_wEta r 0 s' = (sin_sum_wEta r 0 s + eta * sin (1 * phi))%R /\
     cos_sum_wEta r 1 s' = cos_sum_wEta r 1 s /\
     sin_sum_wEta r 1 s' = sin_sum_wEta r 1 s) /\
  (forall s t r, fails_quality t = false -> in_region r (flip t) = false ->
     let s' := fst (track_body s t) in
     forall n,
     cos_sum r n s' = cos_sum r n s /\ sin_sum r n s' = sin_sum r n s /\
     cos_sum_wEta r n s' = cos_sum_wEta r n s /\
     sin_sum_wEta r n s' = sin_sum_wEta r n s) /\
  (forall e ev, process_event e = Some ev ->
     get2 1 (outQx_back_wEta ev) = 0%R /\
     get2 1 (outQy_back_wEta ev) = 0%R /\
     forall j, get24 1 j (outQx_for_wEta ev) = 0%R /\
               get24 1 j (outQy_for_wEta ev) = 0%R).
Proof.
  split; [|split].
  - intros s t r Hq Hr. cbv zeta.
    pose proof (body_sums s t r) as H. cbv zeta in H.
    unfold passes in H. rewrite Hq, Hr in H. exact H.
  - intros s t r Hq Hr. cbv zeta. intros n.
    pose proof (body_sums s t r) as H. cbv zeta in H.
    unfold passes in H. rewrite Hq, Hr in H. simpl in H.
    destruct H as (H1 & H2 & H3 & H4 & H5 & H6 & H7 & H8).
    destruct n as [|[|n]].
    + repeat split; lra.
    + repeat split; lra.
    + assert (E : forall u,
                 cos_sum r (S (S n)) u = cos_sum r 1 u /\
                 sin_sum r (S (S n)) u = sin_sum r 1 u /\
                 cos_sum_wEta r (S (S n)) u = cos_sum_wEta r 1 u /\
                 sin_sum_wEta r (S (S n)) u = sin_sum_wEta r 1 u)
        by (intros u; destruct r; repeat split; reflexivity).
      destruct (E (fst (track_body s t))) as (-> & -> & -> & ->).
      destruct (E s) as (-> & -> & -> & ->).
      repeat split; lra.
  - intros e ev Hev. apply process_event_Some in Hev.
    destruct Hev as (_ & _ & ->). simpl.
    pose proof (wEta_second_zero_loop (visited e)) as Hz.
    fold (locals_of e) in Hz.
    split; [exact (proj1 (Hz Backward))|].
    split; [exact (proj2 (Hz Backward))|].
    intros j. destruct j as [|[|[|j]]].
    + exact (Hz Forward_1).
    + exact (Hz Forward_2).
    + exact (Hz Forward_3).
    + exact (Hz Forward_incl).
Qed.

Lemma harmonic_accumulation_witness :
  fails_quality sample_backward = false /\
  in_region Backward (flip sample_backward) = true /\
  cos_sum Backward 0 (fst (track_body init_locals sample_backward)) =
    (cos_sum Backward 0 init_locals + cos (1 * (0.2 + PI)))%R.
Proof.
  split; [reflexivity | split; [reflexivity|]].
  exact (proj1 (proj1 harmonic_accumulation init_locals sample_backward
                  Backward eq_refl eq_refl)).
Defined.

(** ** The backward counter *)

Lemma body_back_untouched (s : Locals) (t : Track) :
  in_back (flip t) = false ->
  Qx_back (fst (track_body s t)) = Qx_back s /\
  Qy_back (fst (track_body s t)) = Qy_back s /\
  Qx_back_wEta (fst (track_body s t)) = Qx_back_wEta s /\
  Qy_back_wEta (fst (track_body s t)) = Qy_back_wEta s.
Proof.
  intros H. body_cases t; try discriminate; repeat split; reflexivity.
Qed.

(** C10: at the end of the track loop [nPrimaryBackTracks] is the number
    of quality-passing tracks whose backward flag is set, whatever their
    flipped pseudorapidity; this is the value the multiplicity requirement
    compares with 5 and the value stored in [out_Qmulti[3]]; a
    quality-passing flagged track whose flipped pseudorapidity is at least
    -0.5 increments the counter and leaves the four backward Q-vector arrays
    as they are; a track failing the quality cut changes no local at all. *)
Theorem backward_counter_counts_flagged :
  (forall e,
     nPrimaryBackTracks (locals_of e) =
     count_if (fun t => passes t && is_backward t) (visited e)) /\
  (forall e ev, process_event e = Some ev ->
     get4 3 (out_Qmulti ev) = nPrimaryBackTracks (locals_of e) /\
     5 <= nPrimaryBackTracks (locals_of e)) /\
  (forall s t, fails_quality t = false -> is_backward t = true ->
     (-0.5 <= VELOTRACK_ETA (flip t))%Q ->
     let s' := fst (track_body s t) in
     nPrimaryBackTracks s' = nPrimaryBackTracks s + 1 /\
     Qx_back s' = Qx_back s /\ Qy_back s' = Qy_back s /\
     Qx_back_wEta s' = Qx_back_wEta s /\ Qy_back_wEta s' = Qy_back_wEta s) /\
  (forall s t, fails_quality t = true -> fst (track_body s t) = s).
Proof.
  split; [|split; [|split]].
  - intros e. unfold locals_of. rewrite loop_nPrimaryBackTracks. reflexivity.
  - intros e ev Hev. apply process_event_Some in Hev.
    destruct Hev as (_ & Hn & ->). split; [reflexivity|].
    apply enough_tracks_true in Hn. tauto.
  - intros s t Hq Hb Heta. cbv zeta. split.
    + rewrite body_nPrimaryBackTracks. unfold passes. rewrite Hq, Hb.
      reflexivity.
    + apply body_back_untouched. apply Qlt_bool_false. exact Heta.
  - intros s t Hq. unfold track_body. rewrite Hq. reflexivity.
Qed.

Lemma backward_counter_counts_flagged_witness :
  fails_quality sample_central = false /\
  is_backward sample_central = true /\
  (-0.5 <= VELOTRACK_ETA (flip sample_central))%Q /\
  nPrimaryBackTracks (fst (track_body init_locals sample_central)) = 0 + 1.
Proof.
  split; [reflexivity | split; [reflexivity|]].
  assert (H : (-0.5 <= VELOTRACK_ETA (flip sample_central))%Q)
    by (apply Qle_bool_iff; reflexivity).
  split; [exact H|].
  exact (proj1 (proj1 (proj2 (proj2 backward_counter_counts_flagged))
                  init_locals sample_central eq_refl eq_refl H)).
Defined.

(** ** The forward bins and their union *)

(** The three forward bins split the inclusive range: a pseudorapidity is
    in the inclusive range and in exactly one bin, or in none of the
    four. *)
Lemma forward_bins_partition (t : Track) :
  (in_for_incl t = true /\
   ((in_for_1 t = true /\ in_for_2 t = false /\ in_for_3 t = false) \/
    (in_for_1 t = false /\ in_for_2 t = true /\ in_for_3 t = false) \/
    (in_for_1 t = false /\ in_for_2 t = false /\ in_for_3 t = true))) \/
  (in_for_incl t = false /\
   in_for_1 t = false /\ in_for_2 t = false /\ in_for_3 t = false).
Proof.
  unfold in_for_incl, in_for_1, in_for_2, in_for_3.
  set (x := VELOTRACK_ETA t).
  destruct (Qlt_bool 0.5 x) eqn:H05; destruct (Qle_bool x 2.5) eqn:H25;
  destruct (Qlt_bool 2.5 x) eqn:H25'; destruct (Qle_bool x 4.0) eqn:H40;
  destruct (Qlt_bool 4.0 x) eqn:H40'; destruct (Qle_bool x 6.0) eqn:H60;
  simpl; try tauto; exfalso;
  rewrite ?Qlt_bool_true, ?Qlt_bool_false, ?Qle_bool_iff, ?Qle_bool_false in *;
  lra.
Qed.

Lemma count_if_bins (ts : list Track) :
  count_if (fun t => passes t && in_for_1 (flip t)) ts
  + count_if (fun t => passes t && in_for_2 (flip t)) ts
  + count_if (fun t => passes t && in_for_3 (flip t)) ts
  = count_if (fun t => passes t && in_for_incl (flip t)) ts.
Proof.
  induction ts as [|t ts IH]; simpl; [reflexivity|].
  destruct (passes t); simpl; [|lia].
  destruct (forward_bins_partition (flip t))
    as [(-> & [(-> & -> & ->) | [(-> & -> & ->) | (-> & -> & ->)]])
       | (-> & -> & -> & ->)]; lia.
Qed.

Lemma union_is_sum_body (s : Locals) (t : Track) :
  union_is_sum s -> union_is_sum (fst (track_body s t)).
Proof.
  intros Hs f Hf n Hn.
  pose proof (Hs f Hf n Hn) as Hsn.
  pose proof (body_sums s t Forward_incl) as Hi.
  pose proof (body_sums s t Forward_1) as H1.
  pose proof (body_sums s t Forward_2) as H2.
  pose proof (body_sums s t Forward_3) as H3.
  cbv zeta in Hi, H1, H2, H3. unfold in_region in Hi, H1, H2, H3.
  assert (Hn' : n = 0%nat \/ n = 1%nat) by lia.
  destruct (forward_bins_partition (flip t))
    as [(Ei & [(E1 & E2 & E3) | [(E1 & E2 & E3) | (E1 & E2 & E3)]])
       | (Ei & E1 & E2 & E3)];
  rewrite Ei in Hi; rewrite E1 in H1; rewrite E2 in H2; rewrite E3 in H3;
  destruct (passes t); simpl in Hi, H1, H2, H3;
  destruct Hi as (Hi1 & Hi2 & Hi3 & Hi4 & Hi5 & Hi6 & Hi7 & Hi8);
  destruct H1 as (H11 & H12 & H13 & H14 & H15 & H16 & H17 & H18);
  destruct H2 as (H21 & H22 & H23 & H24 & H25 & H26 & H27 & H28);
  destruct H3 as (H31 & H32 & H33 & H34 & H35 & H36 & H37 & H38);
  destruct Hf as [-> | [-> | [-> | ->]]]; destruct Hn' as [-> | ->];
  simpl in Hsn |- *; lra.
Qed.

Lemma union_is_sum_loop (ts : list Track) :
  union_is_sum (fst (track_loop ts init_locals)).
Proof.
  apply (loop_invariant union_is_sum).
  - exact union_is_sum_body.
  - intros f Hf n Hn. assert (Hn' : n = 0%nat \/ n = 1%nat) by lia.
    destruct Hf as [-> | [-> | [-> | ->]]]; destruct Hn' as [-> | ->];
      simpl; lra.
Qed.

(** The four relations at the end of the track loop of an entry. *)
Lemma locals_union_is_sum :
  forall e n, (n < 2)%nat ->
     let s := locals_of e in
     get24 n 3 (Qx_for s) =
       (get24 n 0 (Qx_for s) + get24 n 1 (Qx_for s) + get24 n 2 (Qx_for s))%R /\
     get24 n 3 (Qy_for s) =
       (get24 n 0 (Qy_for s) + get24 n 1 (Qy_for s) + get24 n 2 (Qy_for s))%R /\
     get24 n 3 (Qx_for_wEta s) =
       (get24 n 0 (Qx_for_wEta s) + get24 n 1 (Qx_for_wEta s)
        + get24 n 2 (Qx_for_wEta s))%R /\
     get24 n 3 (Qy_for_wEta s) =
       (get24 n 0 (Qy_for_wEta s) + get24 n 1 (Qy_for_wEta s)
        + get24 n 2 (Qy_for_wEta s))%R.
Proof.
  intros e n Hn. cbv zeta.
  pose proof (union_is_sum_loop (visited e)) as H.
  fold (locals_of e) in H.
  repeat split.
  - exact (H cos_sum (or_introl eq_refl) n Hn).
  - exact (H sin_sum (or_intror (or_introl eq_refl)) n Hn).
  - exact (H cos_sum_wEta (or_intror (or_intror (or_introl eq_refl))) n Hn).
  - exact (H sin_sum_wEta (or_intror (or_intror (or_intror eq_refl))) n Hn).
Qed.

(** C9: at the end of the track loop of any event, and in every event
    written to the output tree, [Qx_for[n][3] = Qx_for[n][0] + Qx_for[n][1]
    + Qx_for[n][2]] for n = 0, 1, and likewise for [Qy_for], [Qx_for_wEta]
    and [Qy_for_wEta], the sums being sums of real numbers; and the three
    forward-bin multiplicities add up to the number of quality-passing
    tracks whose flipped pseudorapidity lies in (0.5, 6.0]. *)
Theorem forward_union_is_sum_of_bins :
  (forall e n, (n < 2)%nat ->
     let s := locals_of e in
     get24 n 3 (Qx_for s) =
       (get24 n 0 (Qx_for s) + get24 n 1 (Qx_for s) + get24 n 2 (Qx_for s))%R /\
     get24 n 3 (Qy_for s) =
       (get24 n 0 (Qy_for s) + get24 n 1 (Qy_for s) + get24 n 2 (Qy_for s))%R /\
     get24 n 3 (Qx_for_wEta s) =
       (get24 n 0 (Qx_for_wEta s) + get24 n 1 (Qx_for_wEta s)
        + get24 n 2 (Qx_for_wEta s))%R /\
     get24 n 3 (Qy_for_wEta s) =
       (get24 n 0 (Qy_for_wEta s) + get24 n 1 (Qy_for_wEta s)
        + get24 n 2 (Qy_for_wEta s))%R) /\
  (forall e ev n, process_event e = Some ev -> (n < 2)%nat ->
     get24 n 3 (outQx_for ev) =
       (get24 n 0 (outQx_for ev) + get24 n 1 (outQx_for ev)
        + get24 n 2 (outQx_for ev))%R /\
     get24 n 3 (outQy_for ev) =
       (get24 n 0 (outQy_for ev) + get24 n 1 (outQy_for ev)
        + get24 n 2 (outQy_for ev))%R /\
     get24 n 3 (outQx_for_wEta ev) =
       (get24 n 0 (outQx_for_wEta ev) + get24 n 1 (outQx_for_wEta ev)
        + get24 n 2 (outQx_for_wEta ev))%R /\
     get24 n 3 (outQy_for_wEta ev) =
       (get24 n 0 (outQy_for_wEta ev) + get24 n 1 (outQy_for_wEta ev)
        + get24 n 2 (outQy_for_wEta ev))%R) /\
  (forall e,
     let s := locals_of e in
     nPrimaryForTracks_1 s + nPrimaryForTracks_2 s + nPrimaryForTracks_3 s =
     count_if (fun t => passes t && in_for_incl (flip t)) (visited e)).
Proof.
  pose proof locals_union_is_sum as Hloc.
  split; [exact Hloc | split].
  - intros e ev n Hev Hn. apply process_event_Some in Hev.
    destruct Hev as (_ & _ & ->). exact (Hloc e n Hn).
  - intros e. cbv zeta. unfold locals_of.
    rewrite loop_nPrimaryForTracks_1, loop_nPrimaryForTracks_2,
      loop_nPrimaryForTracks_3.
    simpl. apply count_if_bins.
Qed.

Lemma forward_union_is_sum_of_bins_witness :
  (0 < 2)%nat /\
  get24 0 3 (Qx_for (locals_of sample_entry)) =
    (get24 0 0 (Qx_for (locals_of sample_entry))
     + get24 0 1 (Qx_for (locals_of sample_entry))
     + get24 0 2 (Qx_for (locals_of sample_entry)))%R.
Proof.
  split; [lia|].
  apply (proj1 forward_union_is_sum_of_bins sample_entry 0%nat). lia.
Defined.

(** ** The multiplicity requirement and the output tree *)

(** The event loop appends the events of the entries that survive, in
    order, and sends nothing to [std::cerr]. *)
Lemma event_loop_output (es : list Entry) (o : Output) :
  event_loop es o = mkOutput (outTree o ++ omap process_event es) (cerr o).
Proof.
  revert o. induction es as [|e es IH]; intros o; simpl.
  - rewrite app_nil_r. destruct o; reflexivity.
  - destruct (process_event e) as [ev|]; rewrite IH; simpl.
    + rewrite <- app_assoc. reflexivity.
    + reflexivity.
Qed.

Lemma sample_entry_counts :
  nPrimaryForTracks (locals_of sample_entry) = 30 /\
  nPrimaryBackTracks (locals_of sample_entry) = 5 /\
  nPrimaryForTracks_1 (locals_of sample_entry) = 5 /\
  nPrimaryForTracks_2 (locals_of sample_entry) = 5 /\
  nPrimaryForTracks_3 (locals_of sample_entry) = 5.
Proof.
  unfold locals_of.
  rewrite loop_nPrimaryForTracks, loop_nPrimaryBackTracks,
    loop_nPrimaryForTracks_1, loop_nPrimaryForTracks_2,
    loop_nPrimaryForTracks_3.
  repeat split; reflexivity.
Qed.

Lemma sample_entry_4_counts :
  nPrimaryForTracks (locals_of sample_entry_4) = 28 /\
  nPrimaryBackTracks (locals_of sample_entry_4) = 5 /\
  nPrimaryForTracks_1 (locals_of sample_entry_4) = 5 /\
  nPrimaryForTracks_2 (locals_of sample_entry_4) = 4 /\
  nPrimaryForTracks_3 (locals_of sample_entry_4) = 5.
Proof.
  unfold locals_of.
  rewrite loop_nPrimaryForTracks, loop_nPrimaryBackTracks,
    loop_nPrimaryForTracks_1, loop_nPrimaryForTracks_2,
    loop_nPrimaryForTracks_3.
  repeat split; reflexivity.
Qed.

(** What becomes of an entry that passed the event selection. *)
Lemma process_event_selected :
  forall e, event_selection e = true ->
     let s := locals_of e in
     ((exists ev, process_event e = Some ev) <->
      5 <= nPrimaryForTracks s /\ 5 <= nPrimaryBackTracks s /\
      5 <= nPrimaryForTracks_1 s /\ 5 <= nPrimaryForTracks_2 s /\
      5 <= nPrimaryForTracks_3 s) /\
     (nPrimaryForTracks_2 s = 4 -> process_event e = None) /\
     (nPrimaryForTracks_2 s = 5 ->
      5 <= nPrimaryForTracks s -> 5 <= nPrimaryBackTracks s ->
      5 <= nPrimaryForTracks_1 s -> 5 <= nPrimaryForTracks_3 s ->
      process_event e = Some (fill_event e s)).
Proof.
  intros e Hsel. cbv zeta. unfold process_event. rewrite Hsel. cbv zeta.
  pose proof (enough_tracks_true (locals_of e)) as Hen.
  destruct (enough_tracks (locals_of e)).
  - split; [|split].
    + split; [intros _; apply Hen; reflexivity | intros _; eauto].
    + intros H4. destruct Hen as [Hen _]. specialize (Hen eq_refl). lia.
    + reflexivity.
  - split; [|split].
    + split; [intros [ev Hev]; discriminate|].
      intros H. apply Hen in H. discriminate.
    + reflexivity.
    + intros H2 HF HB H1 H3.
      assert (false = true) by (apply Hen; lia). discriminate.
Qed.

(** C3: an entry that passes the event selection is written to the output
    tree exactly when, at the end of its track loop, [nPrimaryForTracks],
    [nPrimaryBackTracks] and the three forward-bin multiplicities are all at
    least 5; with [nPrimaryForTracks_2 = 4] it is dropped whatever the other
    counters, with [nPrimaryForTracks_2 = 5] and the others at least 5 it is
    written (the two sample entries show both cases); the event loop
    appends one event per surviving entry, nothing for a dropped one, and
    never writes to [std::cerr]. *)
Theorem multiplicity_requirement :
  (forall e, event_selection e = true ->
     let s := locals_of e in
     ((exists ev, process_event e = Some ev) <->
      5 <= nPrimaryForTracks s /\ 5 <= nPrimaryBackTracks s /\
      5 <= nPrimaryForTracks_1 s /\ 5 <= nPrimaryForTracks_2 s /\
      5 <= nPrimaryForTracks_3 s) /\
     (nPrimaryForTracks_2 s = 4 -> process_event e = None) /\
     (nPrimaryForTracks_2 s = 5 ->
      5 <= nPrimaryForTracks s -> 5 <= nPrimaryBackTracks s ->
      5 <= nPrimaryForTracks_1 s -> 5 <= nPrimaryForTracks_3 s ->
      process_event e = Some (fill_event e s))) /\
  (event_selection sample_entry_4 = true /\
   nPrimaryForTracks_2 (locals_of sample_entry_4) = 4 /\
   process_event sample_entry_4 = None) /\
  (event_selection sample_entry = true /\
   nPrimaryForTracks_2 (locals_of sample_entry) = 5 /\
   process_event sample_entry =
     Some (fill_event sample_entry (locals_of sample_entry))) /\
  (forall e rest o, process_event e = None ->
     event_loop (e :: rest) o = event_loop rest o) /\
  (forall e ev rest o, process_event e = Some ev ->
     event_loop (e :: rest) o =
     event_loop rest (mkOutput (outTree o ++ [ev]) (cerr o))) /\
  (forall es o,
     outTree (event_loop es o) = outTree o ++ omap process_event es /\
     cerr (event_loop es o) = cerr o).
Proof.
  pose proof process_event_selected as Hgen.
  split; [exact Hgen|].
  destruct sample_entry_4_counts as (F4 & B4 & A4 & N4 & C4).
  destruct sample_entry_counts as (F5 & B5 & A5 & N5 & C5).
  split; [|split; [|split; [|split]]].
  - split; [reflexivity | split; [exact N4|]].
    apply (Hgen sample_entry_4 eq_refl). exact N4.
  - split; [reflexivity | split; [exact N5|]].
    apply (Hgen sample_entry eq_refl); lia.
  - intros e rest o H. simpl. rewrite H. reflexivity.
  - intros e ev rest o H. simpl. rewrite H. reflexivity.
  - intros es o. rewrite event_loop_output. split; reflexivity.
Qed.

Lemma multiplicity_requirement_witness :
  event_selection sample_entry = true /\
  nPrimaryForTracks_2 (locals_of sample_entry) = 5 /\
  process_event sample_entry =
    Some (fill_event sample_entry (locals_of sample_entry)).
Proof.
  destruct sample_entry_counts as (F5 & B5 & A5 & N5 & C5).
  split; [reflexivity | split; [exact N5|]].
  apply (proj1 multiplicity_requirement sample_entry eq_refl); lia.
Defined.

(** * Further properties of EventPlaneAnalysis.cpp *)

(** ** The Q-vectors as sums over the tracks *)

Lemma loop_sum (f : Locals -> R) (d : Track -> R) :
  (forall s t, f (fst (track_body s t)) = (f s + d t)%R) ->
  forall ts s, f (fst (track_loop ts s)) = (f s + sum_over d ts)%R.
Proof.
  intros Hstep ts. induction ts as [|t ts IH]; intros s.
  - simpl. lra.
  - rewrite track_loop_cons, IH, Hstep. simpl. lra.
Qed.

Lemma sum_over_zero {A : Type} (l : list A) :
  sum_over (fun _ => 0%R) l = 0%R.
Proof. induction l as [|x l IH]; simpl; [reflexivity | rewrite IH; lra]. Qed.

(** The eight sums of a region at the end of a track loop started from
    the locals [s]. *)
Lemma loop_sums (ts : list Track) (s : Locals) (r : Region) :
  let s' := fst (track_loop ts s) in
  cos_sum r 0 s' =
    (cos_sum r 0 s
     + sum_over (contribution r (fun t => cos (1 * VELOTRACK_PHI t))) ts)%R /\
  cos_sum r 1 s' =
    (cos_sum r 1 s
     + sum_over (contribution r (fun t => cos (2 * VELOTRACK_PHI t))) ts)%R /\
  sin_sum r 0 s' =
    (sin_sum r 0 s
     + sum_over (contribution r (fun t => sin (1 * VELOTRACK_PHI t))) ts)%R /\
  sin_sum r 1 s' =
    (sin_sum r 1 s
     + sum_over (contribution r (fun t => sin (2 * VELOTRACK_PHI t))) ts)%R /\
  cos_sum_wEta r 0 s' =
    (cos_sum_wEta r 0 s
     + sum_over (contribution r (fun t =>
         Q2R (VELOTRACK_ETA t) * cos (1 * VELOTRACK_PHI t))) ts)%R /\
  sin_sum_wEta r 0 s' =
    (sin_sum_wEta r 0 s
     + sum_over (contribution r (fun t =>
         Q2R (VELOTRACK_ETA t) * sin (1 * VELOTRACK_PHI t))) ts)%R /\
  cos_sum_wEta r 1 s' = cos_sum_wEta r 1 s /\
  sin_sum_wEta r 1 s' = sin_sum_wEta r 1 s.
Proof.
  cbv zeta.
  repeat split.
  - apply (loop_sum (cos_sum r 0)). intros u t. apply (body_sums u t r).
  - apply (loop_sum (cos_sum r 1)). intros u t. apply (body_sums u t r).
  - apply (loop_sum (sin_sum r 0)). intros u t. apply (body_sums u t r).
  - apply (loop_sum (sin_sum r 1)). intros u t. apply (body_sums u t r).
  - apply (loop_sum (cos_sum_wEta r 0)). intros u t. apply (body_sums u t r).
  - apply (loop_sum (sin_sum_wEta r 0)). intros u t. apply (body_sums u t r).
  - rewrite (loop_sum (cos_sum_wEta r 1) (fun _ => 0%R)).
    + rewrite sum_over_zero. lra.
    + intros u t.
      destruct (body_sums u t r) as (_ & _ & _ & _ & _ & _ & H & _).
      rewrite H. lra.
  - rewrite (loop_sum (sin_sum_wEta r 1) (fun _ => 0%R)).
    + rewrite sum_over_zero. lra.
    + intros u t.
      destruct (body_sums u t r) as (_ & _ & _ & _ & _ & _ & _ & H).
      rewrite H. lra.
Qed.

(** The sums at the end of the track loop of an entry. *)
Lemma locals_sums :
  forall e r,
     let s := locals_of e in
     cos_sum r 0 s =
       sum_over (contribution r (fun t => cos (1 * VELOTRACK_PHI t)))
         (visited e) /\
     cos_sum r 1 s =
       sum_over (contribution r (fun t => cos (2 * VELOTRACK_PHI t)))
         (visited e) /\
     sin_sum r 0 s =
       sum_over (contribution r (fun t => sin (1 * VELOTRACK_PHI t)))
         (visited e) /\
     sin_sum r 1 s =
       sum_over (contribution r (fun t => sin (2 * VELOTRACK_PHI t)))
         (visited e) /\
     cos_sum_wEta r 0 s =
       sum_over (contribution r (fun t =>
         Q2R (VELOTRACK_ETA t) * cos (1 * VELOTRACK_PHI t))%R) (visited e) /\
     sin_sum_wEta r 0 s =
       sum_over (contribution r (fun t =>
         Q2R (VELOTRACK_ETA t) * sin (1 * VELOTRACK_PHI t))%R) (visited e).
Proof.
  intros e r. cbv zeta. unfold locals_of.
  destruct (loop_sums (visited e) init_locals r)
    as (H1 & H2 & H3 & H4 & H5 & H6 & _).
  rewrite H1, H2, H3, H4, H5, H6.
  destruct r; simpl; repeat split; lra.
Qed.

Lemma sum_over_app {A : Type} (f : A -> R) (l1 l2 : list A) :
  sum_over f (l1 ++ l2) = (sum_over f l1 + sum_over f l2)%R.
Proof.
  induction l1 as [|x l1 IH]; simpl; [lra | rewrite IH; lra].
Qed.

Lemma no_backward_contribution (g : Track -> R) (l : list Track) :
  forallb (fun t => negb (passes t && in_back (flip t))) l = true ->
  sum_over (contribution Backward g) l = 0%R.
Proof.
  induction l as [|t l IH]; simpl; [reflexivity|].
  intros H. apply andb_true_iff in H. destruct H as [Ht Hl].
  apply negb_true_iff in Ht. unfold contribution at 1. simpl in_region.
  rewrite Ht, (IH Hl). lra.
Qed.

(** X1: at the end of the track loop of an entry each Q-vector component
    of a region is the sum, over the quality-passing visited tracks whose
    flipped pseudorapidity is in the region, of cos(n phi) or sin(n phi) of
    the flipped angle (times the flipped pseudorapidity for the
    eta-weighted first harmonic); when the quality-passing tracks that the
    flip leaves in the backward region are three tracks, flagged or not,
    with final angles 0, pi/2 and pi, this gives [Qx_back[0] = 0] and
    [Qy_back[0] = 1]; when they are three flagged tracks read with the
    angles 0, pi/2 and pi, it gives [Qx_back[0] = 0] and
    [Qy_back[0] = -1]. *)
Theorem qvectors_are_sums :
  (forall e r,
     let s := locals_of e in
     cos_sum r 0 s =
       sum_over (contribution r (fun t => cos (1 * VELOTRACK_PHI t)))
         (visited e) /\
     cos_sum r 1 s =
       sum_over (contribution r (fun t => cos (2 * VELOTRACK_PHI t)))
         (visited e) /\
     sin_sum r 0 s =
       sum_over (contribution r (fun t => sin (1 * VELOTRACK_PHI t)))
         (visited e) /\
     sin_sum r 1 s =
       sum_over (contribution r (fun t => sin (2 * VELOTRACK_PHI t)))
         (visited e) /\
     cos_sum_wEta r 0 s =
       sum_over (contribution r (fun t =>
         Q2R (VELOTRACK_ETA t) * cos (1 * VELOTRACK_PHI t))%R) (visited e) /\
     sin_sum_wEta r 0 s =
       sum_over (contribution r (fun t =>
         Q2R (VELOTRACK_ETA t) * sin (1 * VELOTRACK_PHI t))%R) (visited e)) /\
  (forall e t0 t1 t2 others,
     visited e = [t0; t1; t2] ++ others ->
     (forall t, In t [t0; t1; t2] ->
        fails_quality t = false /\ in_back (flip t) = true) ->
     forallb (fun t => negb (passes t && in_back (flip t))) others = true ->
     VELOTRACK_PHI (flip t0) = 0%R ->
     VELOTRACK_PHI (flip t1) = (PI / 2)%R ->
     VELOTRACK_PHI (flip t2) = PI ->
     get2 0 (Qx_back (locals_of e)) = 0%R /\
     get2 0 (Qy_back (locals_of e)) = 1%R) /\
  (forall e t0 t1 t2 others,
     visited e = [t0; t1; t2] ++ others ->
     (forall t, In t [t0; t1; t2] ->
        fails_quality t = false /\ is_backward t = true /\
        in_back (flip t) = true) ->
     forallb (fun t => negb (passes t && in_back (flip t))) others = true ->
     VELOTRACK_PHI t0 = 0%R -> VELOTRACK_PHI t1 = (PI / 2)%R ->
     VELOTRACK_PHI t2 = PI ->
     get2 0 (Qx_back (locals_of e)) = 0%R /\
     get2 0 (Qy_back (locals_of e)) = (-1)%R).
Proof.
  pose proof locals_sums as Hsum.
  assert (Hthree : forall e t0 t1 t2 others,
     visited e = [t0; t1; t2] ++ others ->
     (forall t, In t [t0; t1; t2] ->
        fails_quality t = false /\ in_back (flip t) = true) ->
     forallb (fun t => negb (passes t && in_back (flip t))) others = true ->
     get2 0 (Qx_back (locals_of e)) =
       (cos (1 * VELOTRACK_PHI (flip t0)) + (cos (1 * VELOTRACK_PHI (flip t1))
        + (cos (1 * VELOTRACK_PHI (flip t2)) + 0)))%R /\
     get2 0 (Qy_back (locals_of e)) =
       (sin (1 * VELOTRACK_PHI (flip t0)) + (sin (1 * VELOTRACK_PHI (flip t1))
        + (sin (1 * VELOTRACK_PHI (flip t2)) + 0)))%R).
  { intros e t0 t1 t2 others Hv Hall Hothers.
    destruct (Hsum e Backward) as (Hc & _ & Hs & _). cbv zeta in Hc, Hs.
    change (get2 0 (Qx_back (locals_of e)))
      with (cos_sum Backward 0 (locals_of e)).
    change (get2 0 (Qy_back (locals_of e)))
      with (sin_sum Backward 0 (locals_of e)).
    rewrite Hc, Hs, Hv, !sum_over_app.
    rewrite !(no_backward_contribution _ others Hothers).
    assert (Hc0 : forall t g, In t [t0; t1; t2] ->
              contribution Backward g t = g (flip t)).
    { intros t g Hin. destruct (Hall t Hin) as (Hq & Hr).
      unfold contribution, passes. rewrite Hq. simpl. rewrite Hr.
      reflexivity. }
    simpl sum_over. rewrite !Hc0 by (simpl; auto). split; lra. }
  split; [exact Hsum | split].
  - intros e t0 t1 t2 others Hv Hall Hothers P0 P1 P2.
    destruct (Hthree e t0 t1 t2 others Hv Hall Hothers) as (-> & ->).
    rewrite P0, P1, P2.
    replace (1 * 0)%R with 0%R by lra.
    replace (1 * (PI / 2))%R with (PI / 2)%R by lra.
    replace (1 * PI)%R with PI by lra.
    rewrite cos_0, cos_PI2, cos_PI, sin_0, sin_PI2, sin_PI.
    split; lra.
  - intros e t0 t1 t2 others Hv Hall Hothers P0 P1 P2.
    assert (Hall' : forall t, In t [t0; t1; t2] ->
              fails_quality t = false /\ in_back (flip t) = true).
    { intros t Hin. destruct (Hall t Hin) as (Hq & _ & Hr). auto. }
    destruct (Hthree e t0 t1 t2 others Hv Hall' Hothers) as (-> & ->).
    assert (Hphi : forall t, In t [t0; t1; t2] ->
              (1 * VELOTRACK_PHI (flip t))%R = (VELOTRACK_PHI t + PI)%R).
    { intros t Hin. destruct (Hall t Hin) as (_ & Hb & _).
      rewrite (flip_backward t Hb). cbn [VELOTRACK_PHI]. lra. }
    rewrite !Hphi by (simpl; auto).
    rewrite !neg_cos, !neg_sin, P0, P1, P2.
    rewrite cos_0, cos_PI2, cos_PI, sin_0, sin_PI2, sin_PI.
    split; lra.
Qed.

Lemma qvectors_are_sums_witness :
  (event_selection sample_three_back = true /\
   get2 0 (Qx_back (locals_of sample_three_back)) = 0%R /\
   get2 0 (Qy_back (locals_of sample_three_back)) = 1%R) /\
  (event_selection sample_three_flagged = true /\
   get2 0 (Qx_back (locals_of sample_three_flagged)) = 0%R /\
   get2 0 (Qy_back (locals_of sample_three_flagged)) = (-1)%R).
Proof.
  split; (split; [reflexivity|]).
  - apply (proj1 (proj2 qvectors_are_sums) sample_three_back
             (track_of 0 (-1.0) 0 0%R) (track_of 0 (-1.0) 0 (PI / 2)%R)
             (track_of 0 (-1.0) 0 PI) sample_others); try reflexivity.
    intros t [<- | [<- | [<- | []]]]; split; reflexivity.
  - apply (proj2 (proj2 qvectors_are_sums) sample_three_flagged
             (track_of 0 1.0 1 0%R) (track_of 0 1.0 1 (PI / 2)%R)
             (track_of 0 1.0 1 PI) sample_others); try reflexivity.
    intros t [<- | [<- | [<- | []]]]; repeat split; reflexivity.
Defined.

(** ** The order of the tracks *)

Lemma count_if_perm {A : Type} (p : A -> bool) (l l' : list A) :
  Permutation l l' -> count_if p l = count_if p l'.
Proof.
  induction 1 as [|x l l' _ IH|x y l|l l' l'' _ IH1 _ IH2]; simpl;
    [reflexivity | rewrite IH; reflexivity | lia | congruence].
Qed.

Lemma sum_over_perm {A : Type} (f : A -> R) (l l' : list A) :
  Permutation l l' -> sum_over f l = sum_over f l'.
Proof.
  induction 1 as [|x l l' _ IH|x y l|l l' l'' _ IH1 _ IH2]; simpl;
    [reflexivity | rewrite IH; reflexivity | lra | congruence].
Qed.

(** Two states of the locals with the same multiplicities and the same
    sums are the same. *)
Lemma Locals_ext (s1 s2 : Locals) :
  nPrimaryForTracks s1 = nPrimaryForTracks s2 ->
  nPrimaryBackTracks s1 = nPrimaryBackTracks s2 ->
  nPrimaryForTracks_1 s1 = nPrimaryForTracks_1 s2 ->
  nPrimaryForTracks_2 s1 = nPrimaryForTracks_2 s2 ->
  nPrimaryForTracks_3 s1 = nPrimaryForTracks_3 s2 ->
  (forall r n, (n < 2)%nat ->
     cos_sum r n s1 = cos_sum r n s2 /\ sin_sum r n s1 = sin_sum r n s2 /\
     cos_sum_wEta r n s1 = cos_sum_wEta r n s2 /\
     sin_sum_wEta r n s1 = sin_sum_wEta r n s2) ->
  s1 = s2.
Proof.
  intros HF HB H1 H2 H3 H.
  assert (L0 : (0 < 2)%nat) by lia. assert (L1 : (1 < 2)%nat) by lia.
  pose proof (H Backward 0%nat L0) as B0. pose proof (H Backward 1%nat L1) as B1.
  pose proof (H Forward_1 0%nat L0) as F10. pose proof (H Forward_1 1%nat L1) as F11.
  pose proof (H Forward_2 0%nat L0) as F20. pose proof (H Forward_2 1%nat L1) as F21.
  pose proof (H Forward_3 0%nat L0) as F30. pose proof (H Forward_3 1%nat L1) as F31.
  pose proof (H Forward_incl 0%nat L0) as FI0.
  pose proof (H Forward_incl 1%nat L1) as FI1.
  clear H.
  destruct s1 as [a1 a2 a3 a4 a5 [xb0 xb1] [yb0 yb1]
                    [[xf00 xf01 xf02 xf03] [xf10 xf11 xf12 xf13]]
                    [[yf00 yf01 yf02 yf03] [yf10 yf11 yf12 yf13]]
                    [xbw0 xbw1] [ybw0 ybw1]
                    [[xfw00 xfw01 xfw02 xfw03] [xfw10 xfw11 xfw12 xfw13]]
                    [[yfw00 yfw01 yfw02 yfw03] [yfw10 yfw11 yfw12 yfw13]]].
  destruct s2 as [b1 b2 b3 b4 b5 [xb0' xb1'] [yb0' yb1']
                    [[xf00' xf01' xf02' xf03'] [xf10' xf11' xf12' xf13']]
                    [[yf00' yf01' yf02' yf03'] [yf10' yf11' yf12' yf13']]
                    [xbw0' xbw1'] [ybw0' ybw1']
                    [[xfw00' xfw01' xfw02' xfw03'] [xfw10' xfw11' xfw12' xfw13']]
                    [[yfw00' yfw01' yfw02' yfw03'] [yfw10' yfw11' yfw12' yfw13']]].
  simpl in *.
  destruct B0 as (? & ? & ? & ?), B1 as (? & ? & ? & ?).
  destruct F10 as (? & ? & ? & ?), F11 as (? & ? & ? & ?).
  destruct F20 as (? & ? & ? & ?), F21 as (? & ? & ? & ?).
  destruct F30 as (? & ? & ? & ?), F31 as (? & ? & ? & ?).
  destruct FI0 as (? & ? & ? & ?), FI1 as (? & ? & ? & ?).
  subst. reflexivity.
Qed.

(** X2: the locals at the end of the track loop (the five multiplicities
    and every Q-vector component, as real sums) do not depend on the order
    in which the tracks are stored in the buffers. *)
Theorem track_order_irrelevant (ts ts' : list Track) (s : Locals) :
  Permutation ts ts' ->
  fst (track_loop ts s) = fst (track_loop ts' s).
Proof.
  intros HP. apply Locals_ext.
  - rewrite !loop_nPrimaryForTracks.
    rewrite (count_if_perm _ _ _ HP).
    rewrite (count_if_perm (fun t => passes t && in_for_incl (flip t)) _ _ HP).
    reflexivity.
  - rewrite !loop_nPrimaryBackTracks, (count_if_perm _ _ _ HP). reflexivity.
  - rewrite !loop_nPrimaryForTracks_1, (count_if_perm _ _ _ HP). reflexivity.
  - rewrite !loop_nPrimaryForTracks_2, (count_if_perm _ _ _ HP). reflexivity.
  - rewrite !loop_nPrimaryForTracks_3, (count_if_perm _ _ _ HP). reflexivity.
  - intros r n Hn.
    destruct (loop_sums ts s r) as (A1 & A2 & A3 & A4 & A5 & A6 & A7 & A8).
    destruct (loop_sums ts' s r) as (B1 & B2 & B3 & B4 & B5 & B6 & B7 & B8).
    assert (Hn' : n = 0%nat \/ n = 1%nat) by lia.
    destruct Hn' as [-> | ->].
    + rewrite A1, A3, A5, A6, B1, B3, B5, B6.
      rewrite !(sum_over_perm _ _ _ HP). repeat split; reflexivity.
    + rewrite A2, A4, A7, A8, B2, B4, B7, B8.
      rewrite !(sum_over_perm _ _ _ HP). repeat split; reflexivity.
Qed.

Lemma track_order_irrelevant_witness :
  fst (track_loop [sample_backward; sample_for_1] init_locals) =
  fst (track_loop [sample_for_1; sample_backward] init_locals).
Proof.
  apply track_order_irrelevant. apply perm_swap.
Defined.

(** ** The length of a Q-vector *)




(** ** What the flip does to the harmonics *)

Lemma cos_double_shift (x : R) : cos (2 * (x + PI)) = cos (2 * x).
Proof.
  replace (2 * (x + PI))%R with (2 * x + 2 * PI)%R by lra.
  rewrite cos_plus, cos_2PI, sin_2PI. lra.
Qed.

Lemma sin_double_shift (x : R) : sin (2 * (x + PI)) = sin (2 * x).
Proof.
  replace (2 * (x + PI))%R with (2 * x + 2 * PI)%R by lra.
  rewrite sin_plus, cos_2PI, sin_2PI. lra.
Qed.

(** X4: for a quality-passing track flagged backward, in terms of the
    angle and pseudorapidity read from the input: the first-harmonic sums
    of its region receive -cos(phi) and -sin(phi), the second-harmonic sums
    receive cos(2 phi) and sin(2 phi) as if there had been no flip, and the
    eta-weighted sums receive eta cos(phi) and eta sin(phi), the two sign
    changes cancelling. *)
Theorem flip_on_harmonics (s : Locals) (t : Track) (r : Region) :
  fails_quality t = false -> is_backward t = true ->
  in_region r (flip t) = true ->
  let s' := fst (track_body s t) in
  let phi := VELOTRACK_PHI t in
  let eta := Q2R (VELOTRACK_ETA t) in
  cos_sum r 0 s' = (cos_sum r 0 s - cos phi)%R /\
  sin_sum r 0 s' = (sin_sum r 0 s - sin phi)%R /\
  cos_sum r 1 s' = (cos_sum r 1 s + cos (2 * phi))%R /\
  sin_sum r 1 s' = (sin_sum r 1 s + sin (2 * phi))%R /\
  cos_sum_wEta r 0 s' = (cos_sum_wEta r 0 s + eta * cos phi)%R /\
  sin_sum_wEta r 0 s' = (sin_sum_wEta r 0 s + eta * sin phi)%R.
Proof.
  intros Hq Hb Hr. cbv zeta.
  destruct (body_sums s t r) as (C0 & C1 & S0 & S1 & W0 & V0 & _).
  unfold passes in *. rewrite Hq, Hr in *. simpl in C0, C1, S0, S1, W0, V0.
  rewrite C0, C1, S0, S1, W0, V0.
  rewrite (flip_backward t Hb). cbn [VELOTRACK_PHI VELOTRACK_ETA].
  rewrite Q2R_opp.
  replace (1 * (VELOTRACK_PHI t + PI))%R with (VELOTRACK_PHI t + PI)%R by lra.
  rewrite neg_cos, neg_sin, cos_double_shift, sin_double_shift.
  repeat split; lra.
Qed.

Lemma flip_on_harmonics_witness :
  cos_sum Backward 0 (fst (track_body init_locals sample_backward)) =
  (cos_sum Backward 0 init_locals - cos (VELOTRACK_PHI sample_backward))%R.
Proof.
  apply (flip_on_harmonics init_locals sample_backward Backward);
    reflexivity.
Defined.

(** ** Tracks outside every region *)

Lemma regions_apart (t : Track) :
  in_back t = true -> in_for_incl t = false.
Proof.
  unfold in_back, in_for_incl. intros H.
  apply Qlt_bool_true in H.
  destruct (Qlt_bool 0.5 (VELOTRACK_ETA t)) eqn:E; [|reflexivity].
  apply Qlt_bool_true in E. exfalso. lra.
Qed.

(** X5: no track is in the backward region and in a forward bin or the
    inclusive range at once; a quality-passing track whose flipped
    pseudorapidity is in [-0.5, 0.5] or above 6.0 changes none of the
    Q-vector arrays and none of the three bin multiplicities, yet it still
    adds exactly one to [nPrimaryForTracks] (if unflagged) or to
    [nPrimaryBackTracks] (if flagged). *)
Theorem tracks_outside_regions :
  (forall t r, in_back t = true -> r <> Backward -> in_region r t = false) /\
  (forall t, in_no_region t = true <->
     (-0.5 <= VELOTRACK_ETA t <= 0.5)%Q \/ (6.0 < VELOTRACK_ETA t)%Q) /\
  (forall s t, fails_quality t = false -> in_no_region (flip t) = true ->
     let s' := fst (track_body s t) in
     Qx_back s' = Qx_back s /\ Qy_back s' = Qy_back s /\
     Qx_for s' = Qx_for s /\ Qy_for s' = Qy_for s /\
     Qx_back_wEta s' = Qx_back_wEta s /\ Qy_back_wEta s' = Qy_back_wEta s /\
     Qx_for_wEta s' = Qx_for_wEta s /\ Qy_for_wEta s' = Qy_for_wEta s /\
     nPrimaryForTracks_1 s' = nPrimaryForTracks_1 s /\
     nPrimaryForTracks_2 s' = nPrimaryForTracks_2 s /\
     nPrimaryForTracks_3 s' = nPrimaryForTracks_3 s /\
     nPrimaryForTracks s' =
       nPrimaryForTracks s + (if is_backward t then 0 else 1) /\
     nPrimaryBackTracks s' =
       nPrimaryBackTracks s + (if is_backward t then 1 else 0)).
Proof.
  split; [|split].
  - intros t r Hb Hr. pose proof (regions_apart t Hb) as Hi.
    destruct (forward_bins_partition t)
      as [(Ei & _) | (_ & E1 & E2 & E3)]; [congruence|].
    destruct r; simpl; congruence.
  - intros t. unfold in_no_region, in_back, in_for_incl.
    destruct (Qlt_bool (VELOTRACK_ETA t) (-0.5)) eqn:Eb;
    destruct (Qlt_bool 0.5 (VELOTRACK_ETA t)) eqn:El;
    destruct (Qle_bool (VELOTRACK_ETA t) 6.0) eqn:Eh; simpl;
    rewrite ?Qlt_bool_true, ?Qlt_bool_false, ?Qle_bool_iff,
      ?Qle_bool_false in *;
    (split; [intros H; try discriminate H | intros H]);
    first [reflexivity | lra | (exfalso; lra) | idtac].
  - intros s t Hq Hn. cbv zeta.
    unfold in_no_region in Hn.
    apply andb_true_iff in Hn. destruct Hn as [Hb Hi].
    apply negb_true_iff in Hb, Hi.
    destruct (forward_bins_partition (flip t))
      as [(Ei & _) | (_ & E1 & E2 & E3)]; [congruence|].
    unfold track_body. rewrite Hq. cbn [fst].
    unfold accumulate, for_incl_block, for_3_block, for_2_block,
      for_1_block, back_block, count_block.
    rewrite Hb, Hi, E1, E2, E3, is_backward_flip.
    destruct (is_backward t); simpl; repeat split; lia.
Qed.

Lemma tracks_outside_regions_witness :
  fails_quality sample_central = false /\
  in_no_region (flip sample_central) = true /\
  Qx_back (fst (track_body init_locals sample_central)) = Qx_back init_locals.
Proof.
  split; [reflexivity | split; [reflexivity|]].
  exact (proj1 (proj2 (proj2 tracks_outside_regions)
                  init_locals sample_central eq_refl eq_refl)).
Defined.

(** ** The first multiplicity test *)

(** X6: at the end of the track loop [nPrimaryForTracks] is at least the
    sum of the three forward-bin multiplicities, so the test
    [nPrimaryForTracks < 5] of line 347 never rejects an event that the
    three bin tests accept: the requirement amounts to the four tests on
    [nPrimaryBackTracks] and the three bins. *)
Theorem forward_test_redundant (e : Entry) :
  let s := locals_of e in
  nPrimaryForTracks_1 s + nPrimaryForTracks_2 s + nPrimaryForTracks_3 s
    <= nPrimaryForTracks s /\
  enough_tracks s =
    (5 <=? nPrimaryBackTracks s) && (5 <=? nPrimaryForTracks_1 s) &&
    (5 <=? nPrimaryForTracks_2 s) && (5 <=? nPrimaryForTracks_3 s).
Proof.
  cbv zeta.
  assert (H : nPrimaryForTracks_1 (locals_of e) + nPrimaryForTracks_2 (locals_of e)
              + nPrimaryForTracks_3 (locals_of e)
              <= nPrimaryForTracks (locals_of e)).
  { unfold locals_of.
    rewrite loop_nPrimaryForTracks, loop_nPrimaryForTracks_1,
      loop_nPrimaryForTracks_2, loop_nPrimaryForTracks_3.
    pose proof (count_if_bins (visited e)).
    pose proof (count_if_bounds
                  (fun t => passes t && negb (is_backward t)) (visited e)).
    simpl. lia. }
  split; [exact H|].
  unfold enough_tracks.
  destruct (Z.ltb_spec (nPrimaryForTracks (locals_of e)) 5);
  destruct (Z.ltb_spec (nPrimaryBackTracks (locals_of e)) 5);
  destruct (Z.ltb_spec (nPrimaryForTracks_1 (locals_of e)) 5);
  destruct (Z.ltb_spec (nPrimaryForTracks_2 (locals_of e)) 5);
  destruct (Z.ltb_spec (nPrimaryForTracks_3 (locals_of e)) 5);
  destruct (Z.leb_spec 5 (nPrimaryBackTracks (locals_of e)));
  destruct (Z.leb_spec 5 (nPrimaryForTracks_1 (locals_of e)));
  destruct (Z.leb_spec 5 (nPrimaryForTracks_2 (locals_of e)));
  destruct (Z.leb_spec 5 (nPrimaryForTracks_3 (locals_of e)));
  try reflexivity; lia.
Qed.

(** ** The events of the output tree *)

Lemma emitted_event_facts (e : Entry) (ev : Event) :
  process_event e = Some ev ->
  outRUNNUMBER ev = RUNNUMBER e /\ outEVENTNUMBER ev = EVENTNUMBER e /\
  10 <= outnBackTracks ev /\ 15 <= outnVeloTracks ev /\
  ~ (outPVZ ev < -100)%Q /\ ~ (100 < outPVZ ev)%Q /\
  (forall j, 5 <= get4 j (out_Qmulti ev)).
Proof.
  intros H. apply process_event_Some in H. destruct H as (Hs & Hn & ->).
  cbn [fill_event outRUNNUMBER outEVENTNUMBER outnBackTracks outnVeloTracks
         outPVZ out_Qmulti].
  apply enough_tracks_true in Hn. destruct Hn as (_ & HB & H1 & H2 & H3).
  unfold event_selection in Hs.
  destruct (nPVs e =? 1); [|discriminate]. cbn [negb] in Hs.
  destruct (Z.ltb_spec (nBackTracks e) 10); [discriminate|].
  destruct (Qlt_bool (PVZ_0 e) (-100)) eqn:Hlo; [discriminate|].
  destruct (Qlt_bool 100 (PVZ_0 e)) eqn:Hhi; [discriminate|].
  cbn [orb] in Hs.
  destruct (Z.ltb_spec (nVeloTracks e) 15); [discriminate|].
  apply Qlt_bool_false in Hlo, Hhi.
  split; [reflexivity|]. split; [reflexivity|].
  split; [lia|]. split; [lia|].
  split; [intros Hc; exact (Qlt_not_le _ _ Hc Hlo)|].
  split; [intros Hc; exact (Qlt_not_le _ _ Hc Hhi)|].
  intros j. destruct j as [|[|[|j]]]; cbn [get4 a4_0 a4_1 a4_2 a4_3]; lia.
Qed.

(** X7: every event that the event loop adds to the output tree comes from
    one entry of the input, carries its run and event numbers, has at least
    10 backward tracks and 15 VELO tracks recorded, a vertex position
    [outPVZ] for which neither comparison of line 233 holds (it is not
    below -100 and not above 100) and the four stored multiplicities at
    least 5; the loop adds at most one event per entry and keeps their
    order. *)
Theorem output_tree_invariant (es : list Entry) (o : Output) :
  (forall ev, In ev (outTree (event_loop es o)) ->
     In ev (outTree o) \/
     exists e, In e es /\ process_event e = Some ev /\
       outRUNNUMBER ev = RUNNUMBER e /\ outEVENTNUMBER ev = EVENTNUMBER e /\
       10 <= outnBackTracks ev /\ 15 <= outnVeloTracks ev /\
       ~ (outPVZ ev < -100)%Q /\ ~ (100 < outPVZ ev)%Q /\
       (forall j, 5 <= get4 j (out_Qmulti ev))) /\
  outTree (event_loop es o) = outTree o ++ omap process_event es /\
  (length (outTree (event_loop es o)) <= length (outTree o) + length es)%nat.
Proof.
  rewrite event_loop_output. cbn [outTree].
  split; [|split; [reflexivity|]].
  - intros ev Hin. apply in_app_or in Hin. destruct Hin as [Hin | Hin];
      [left; exact Hin | right].
    apply list_elem_of_In, list_elem_of_omap in Hin.
    destruct Hin as (e & He & Hev).
    exists e. split; [apply list_elem_of_In; exact He|].
    split; [exact Hev|]. apply emitted_event_facts, Hev.
  - rewrite length_app. apply Nat.add_le_mono_l.
    clear. induction es as [|e es IH]; [simpl; lia|].
    change (omap process_event (e :: es))
      with (match process_event e with
            | Some ev => ev :: omap process_event es
            | None => omap process_event es
            end).
    destruct (process_event e); simpl length; lia.
Qed.

Lemma output_tree_invariant_witness :
  In (fill_event sample_entry (locals_of sample_entry))
     (outTree (event_loop [sample_entry] (mkOutput [] []))) /\
  exists e, In e [sample_entry] /\
    process_event e = Some (fill_event sample_entry (locals_of sample_entry)).
Proof.
  assert (H : process_event sample_entry =
                Some (fill_event sample_entry (locals_of sample_entry))).
  { destruct sample_entry_counts as (F5 & B5 & A5 & N5 & C5).
    apply (process_event_selected sample_entry eq_refl); lia. }
  assert (Hin : In (fill_event sample_entry (locals_of sample_entry))
                  (outTree (event_loop [sample_entry] (mkOutput [] [])))).
  { rewrite event_loop_output. cbn [outTree app].
    change (omap process_event [sample_entry])
      with (match process_event sample_entry with
            | Some ev => [ev]
            | None => []
            end).
    rewrite H. left. reflexivity. }
  split; [exact Hin|].
  destruct (proj1 (output_tree_invariant [sample_entry] (mkOutput [] []))
              _ Hin) as [[] | (e & He & Hev & _)].
  exists e. split; [exact He | exact Hev].
Defined.

(** ** The loop over the input files *)

Lemma file_body_output (fileName : string) (f : Opened) (o : Output) :
  outTree (file_body fileName f o) =
    outTree o ++
    match f with
    | EventTuplePV entries => omap process_event entries
    | _ => []
    end /\
  length (cerr (file_body fileName f o)) = S (length (cerr o)).
Proof.
  destruct f; simpl; rewrite ?event_loop_output; simpl;
    rewrite ?app_nil_r, ?length_app; simpl; split; solve [reflexivity | lia].
Qed.

Lemma omap_app_entries (l1 l2 : list Entry) :
  omap process_event (l1 ++ l2) =
  omap process_event l1 ++ omap process_event l2.
Proof. apply omap_app. Qed.

Lemma file_loop_output (Open : string -> Opened) (names : list string)
    (o : Output) :
  outTree (file_loop Open names o) =
    outTree o ++ omap process_event (readable_entries Open names) /\
  length (cerr (file_loop Open names o)) =
    (length (cerr o) + length names)%nat.
Proof.
  revert o. induction names as [|n names IH]; intros o;
    cbn [file_loop readable_entries length].
  - rewrite app_nil_r. split; [reflexivity | lia].
  - destruct (IH (file_body n (Open n) o)) as (-> & ->).
    destruct (file_body_output n (Open n) o) as (-> & ->).
    split; [|lia].
    rewrite <- app_assoc. f_equal.
    destruct (Open n); rewrite ?omap_app_entries; reflexivity.
Qed.

Lemma scan_output (dirPath : string) (files : list TSystemFile) (l : Listing) :
  let found :=
    map (fun f => dirPath +:+ "/" +:+ GetName f) (List.filter selected files) in
  fileNames (scan dirPath files l) = fileNames l ++ found /\
  listing_cout (scan dirPath files l) =
    listing_cout l ++ map (fun n => "Adding file: " +:+ n) found /\
  listing_cerr (scan dirPath files l) = listing_cerr l.
Proof.
  cbv zeta. revert l. induction files as [|f files IH]; intros l; simpl.
  - rewrite !app_nil_r. auto.
  - destruct (selected f); simpl.
    + destruct (IH (mkListing
                      (fileNames l ++ [dirPath +:+ "/" +:+ GetName f])
                      (listing_cout l ++
                         ["Adding file: " +:+ (dirPath +:+ "/" +:+ GetName f)])
                      (listing_cerr l))) as (-> & -> & ->).
      simpl. rewrite <- !app_assoc. auto.
    + apply IH.
Qed.

(** X8: a run of the macro writes to the output tree the surviving events
    of the entries of every selected file that can be read, file by file
    in the order of the directory listing and entry by entry; a file that
    cannot be opened, or lacks the directory or the tree, costs one line on
    [std::cerr] and nothing else, the run going on with the next file; one
    line is sent to [std::cerr] per selected file; when the directory
    itself cannot be read the tree is empty and the run still ends with the
    closing message. *)
Theorem macro_output (GetListOfFiles : option (list TSystemFile))
    (Open : string -> Opened) :
  let run := EventPlaneAnalysis GetListOfFiles Open in
  let names :=
    match GetListOfFiles with
    | None => []
    | Some files =>
        map (fun f => eosDir +:+ "/" +:+ GetName f) (List.filter selected files)
    end in
  run_tree run = omap process_event (readable_entries Open names) /\
  run_cout run =
    map (fun n => "Adding file: " +:+ n) names ++
    ["Done. Saved to event_plane_pbpb.root"] /\
  match GetListOfFiles with
  | None =>
      run_tree run = [] /\
      run_cerr run = ["Could not open or read directory: " +:+ eosDir]
  | Some _ => length (run_cerr run) = length names
  end.
Proof.
  cbv zeta. unfold EventPlaneAnalysis, GetFilteredRootFiles.
  destruct GetListOfFiles as [files|]; cbn [run_tree run_cout run_cerr].
  - destruct (scan_output eosDir files (mkListing [] [] [])) as (Hn & Hc & He).
    cbv zeta in Hn, Hc. cbn [fileNames listing_cout listing_cerr app] in Hn, Hc, He.
    rewrite Hn, Hc, He.
    destruct (file_loop_output Open
                (map (fun f => eosDir +:+ "/" +:+ GetName f)
                     (List.filter selected files))
                (mkOutput [] [])) as (-> & ->).
    simpl. auto.
  - simpl. auto.
Qed.

(** ** The selection of the input files *)

Lemma match_prefix_cons (a : RegAtom) (l : list RegAtom) (s rest : string) :
  match_prefix (a :: l) s = Some rest ->
  exists c s', s = String c s' /\ atom_matches a c = true /\
               match_prefix l s' = Some rest.
Proof.
  simpl. destruct s as [|c s']; [discriminate|].
  destruct (atom_matches a c) eqn:E; [|discriminate].
  intros H. exists c, s'. auto.
Qed.

Lemma digit_of_range (c : Ascii.ascii) (k : nat) :
  atom_matches (Rng (digit 0) (digit k)) c = true -> (k < 10)%nat ->
  exists d, (d <= k)%nat /\ c = digit d.
Proof.
  intros H Hk. unfold atom_matches in H. apply andb_true_iff in H.
  destruct H as [Hlo Hhi]. apply Nat.leb_le in Hlo, Hhi.
  unfold digit in Hlo, Hhi.
  rewrite Ascii.nat_ascii_embedding in Hlo by (simpl; lia).
  rewrite Ascii.nat_ascii_embedding in Hhi by lia.
  exists (Ascii.nat_of_ascii c - 48)%nat. split; [lia|].
  unfold digit.
  replace (48 + (Ascii.nat_of_ascii c - 48))%nat with (Ascii.nat_of_ascii c)
    by lia.
  symmetry. apply Ascii.ascii_nat_embedding.
Qed.

Lemma segment_names_selected :
  forallb (fun n => Contains (segment_name n) pattern &&
                    EndsWith (segment_name n) ".root") (seq 0 500) = true.
Proof. vm_compute. reflexivity. Qed.

Lemma three_digits (a b c : nat) :
  (a <= 4)%nat -> (b <= 9)%nat -> (c <= 9)%nat ->
  let n := (100 * a + 10 * b + c)%nat in
  (n < 500)%nat /\ (n / 100 = a)%nat /\ (n / 10 mod 10 = b)%nat /\
  (n mod 10 = c)%nat.
Proof.
  intros Ha Hb Hc. cbv zeta.
  assert (H10 : ((100 * a + 10 * b + c) / 10 = 10 * a + b)%nat).
  { symmetry. apply (Nat.div_unique _ 10 _ c); lia. }
  split; [lia|]. split; [|split].
  - symmetry. apply (Nat.div_unique _ 100 _ (10 * b + c)); lia.
  - rewrite H10. symmetry. apply (Nat.mod_unique _ 10 a); lia.
  - symmetry. apply (Nat.mod_unique _ 10 (10 * a + b)); lia.
Qed.

(** X9: a directory entry is selected exactly when it is not a directory
    and its name is [00274156_00000ddd_1.tuple_pbpb2024.root] for a
    three-digit segment number [ddd] from 000 to 499, with nothing before
    or after; since such a name ends in [.root], the test [EndsWith]
    of line 104 never rejects a name that the pattern accepts. *)
Theorem selected_files (file : TSystemFile) :
  (selected file = true <->
   IsDirectory file = false /\
   exists n, (n < 500)%nat /\ GetName file = segment_name n) /\
  (Contains (GetName file) pattern = true ->
   EndsWith (GetName file) ".root" = true).
Proof.
  assert (Hfwd : forall name, Contains name pattern = true ->
            exists n, (n < 500)%nat /\ name = segment_name n).
  { intros name H. unfold Contains, match_at in H.
    cbn [pattern anchored_begin anchored_end atoms] in H.
    destruct (match_prefix _ name) as [rest|] eqn:E; [|discriminate].
    destruct rest; [clear H | discriminate].
    unfold literal in E. cbn [String.list_ascii_of_string map app] in E.
    repeat match type of E with
           | match_prefix (Chr _ :: _) _ = _ =>
               apply match_prefix_cons in E;
               destruct E as (? & ? & -> & Hc & E);
               cbn [atom_matches] in Hc; apply Ascii.eqb_eq in Hc; subst
           end.
    apply match_prefix_cons in E. destruct E as (d1 & ? & -> & H1 & E).
    apply match_prefix_cons in E. destruct E as (d2 & ? & -> & H2 & E).
    apply match_prefix_cons in E. destruct E as (d3 & ? & -> & H3 & E).
    repeat match type of E with
           | match_prefix (Chr _ :: _) _ = _ =>
               apply match_prefix_cons in E;
               destruct E as (? & ? & -> & Hc & E);
               cbn [atom_matches] in Hc; apply Ascii.eqb_eq in Hc; subst
           end.
    simpl in E. injection E as ->.
    apply (digit_of_range d1 4) in H1; [|lia].
    apply (digit_of_range d2 9) in H2; [|lia].
    apply (digit_of_range d3 9) in H3; [|lia].
    destruct H1 as (a & Ha & ->), H2 as (b & Hb & ->), H3 as (c & Hc & ->).
    destruct (three_digits a b c Ha Hb Hc) as (Hn & Q1 & Q2 & Q3).
    exists (100 * a + 10 * b + c)%nat. split; [exact Hn|].
    unfold segment_name. rewrite Q1, Q2, Q3. reflexivity. }
  assert (Hbwd : forall n, (n < 500)%nat ->
            Contains (segment_name n) pattern = true /\
            EndsWith (segment_name n) ".root" = true).
  { intros n Hn. pose proof segment_names_selected as H.
    rewrite forallb_forall in H.
    specialize (H n). apply andb_true_iff, H, in_seq. lia. }
  split.
  - unfold selected. split.
    + intros H. apply andb_true_iff in H. destruct H as [H Hc].
      apply andb_true_iff in H. destruct H as [Hd _].
      apply negb_true_iff in Hd. split; [exact Hd | apply Hfwd, Hc].
    + intros (Hd & n & Hn & ->). rewrite Hd.
      destruct (Hbwd n Hn) as (-> & ->). reflexivity.
  - intros H. destruct (Hfwd _ H) as (n & Hn & ->). apply Hbwd, Hn.
Qed.

Lemma selected_files_witness :
  Contains (segment_name 7) pattern = true /\
  EndsWith (segment_name 7) ".root" = true.
Proof.
  assert (H : Contains (segment_name 7) pattern = true) by reflexivity.
  split; [exact H|].
  exact (proj2 (selected_files (mkTSystemFile (segment_name 7) false)) H).
Defined.

(** ** The range of the multiplicities *)

(** X18: when the tracks visited fit the buffers ([maxTracks] slots), the
    five multiplicities stay between 0 and 20000 throughout the track
    loop, far below the largest [int]: no increment of lines 270-340
    overflows. *)
Theorem multiplicities_fit_int (e : Entry) (n : nat) :
  Z.of_nat (length (visited e)) <= maxTracks ->
  let s := fst (track_loop (firstn n (visited e)) init_locals) in
  0 <= nPrimaryForTracks s <= 2 * maxTracks /\
  0 <= nPrimaryBackTracks s <= maxTracks /\
  0 <= nPrimaryForTracks_1 s <= maxTracks /\
  0 <= nPrimaryForTracks_2 s <= maxTracks /\
  0 <= nPrimaryForTracks_3 s <= maxTracks /\
  2 * maxTracks < INT_MAX.
Proof.
  intros H. cbv zeta.
  rewrite loop_nPrimaryForTracks, loop_nPrimaryBackTracks,
    loop_nPrimaryForTracks_1, loop_nPrimaryForTracks_2,
    loop_nPrimaryForTracks_3.
  cbn [init_locals nPrimaryForTracks nPrimaryBackTracks nPrimaryForTracks_1
         nPrimaryForTracks_2 nPrimaryForTracks_3].
  set (l := firstn n (visited e)).
  assert (Hl : Z.of_nat (length l) <= maxTracks).
  { unfold l. rewrite length_firstn. lia. }
  pose proof (count_if_bounds (fun t => passes t && negb (is_backward t)) l).
  pose proof (count_if_bounds (fun t => passes t && in_for_incl (flip t)) l).
  pose proof (count_if_bounds (fun t => passes t && is_backward t) l).
  pose proof (count_if_bounds (fun t => passes t && in_for_1 (flip t)) l).
  pose proof (count_if_bounds (fun t => passes t && in_for_2 (flip t)) l).
  pose proof (count_if_bounds (fun t => passes t && in_for_3 (flip t)) l).
  unfold maxTracks, INT_MAX in *. lia.
Qed.

Lemma multiplicities_fit_int_witness :
  Z.of_nat (length (visited sample_entry)) <= maxTracks /\
  0 <= nPrimaryForTracks
         (fst (track_loop (firstn 20 (visited sample_entry)) init_locals))
    <= 2 * maxTracks.
Proof.
  assert (H : Z.of_nat (length (visited sample_entry)) <= maxTracks).
  { apply Z.leb_le. reflexivity. }
  split; [exact H|].
  exact (proj1 (multiplicities_fit_int sample_entry 20 H)).
Defined.

End EventPlaneAnalysisFacts.

(** * Properties of GlobalPolarizationAnalysis_FilePrep.C *)

Section FilePrepFacts.
Import FilePrep.

(** ** The index over the event-plane tree *)

Lemma index_body_find (iEP : Z) (ep : EventPlane) (ix : Index) (key : Key) :
  epIndexMap_find (index_body iEP ep ix) key =
  if decide (key_of ep = key) then Some iEP else epIndexMap_find ix key.
Proof.
  unfold epIndexMap_find, index_body, key_of. simpl.
  rewrite lookup_insert. reflexivity.
Qed.

Lemma index_body_cerr (iEP : Z) (ep : EventPlane) (ix : Index) :
  index_cerr (index_body iEP ep ix) =
  index_cerr ix ++
  (if decide (key_of ep ∈ dom (epIndexMap ix))
   then [DuplicateEPKey (ep_RUNNUMBER ep) (ep_EVENTNUMBER ep)] else []).
Proof.
  unfold index_body, key_of. simpl.
  destruct (epIndexMap ix !! (ep_RUNNUMBER ep, ep_EVENTNUMBER ep)) as [j|] eqn:E.
  - rewrite decide_True; [reflexivity|]. apply elem_of_dom. eauto.
  - rewrite decide_False; [rewrite app_nil_r; reflexivity|].
    apply not_elem_of_dom. exact E.
Qed.

Lemma index_body_dom (iEP : Z) (ep : EventPlane) (ix : Index) :
  dom (epIndexMap (index_body iEP ep ix)) =
  {[key_of ep]} ∪ dom (epIndexMap ix).
Proof. unfold index_body, key_of. simpl. apply dom_insert_L. Qed.

Lemma index_loop_find (eps : list EventPlane) (iEP : Z) (ix : Index)
    (key : Key) :
  epIndexMap_find (index_loop eps iEP ix) key =
  match last_position key eps iEP with
  | Some j => Some j
  | None => epIndexMap_find ix key
  end.
Proof.
  revert iEP ix. induction eps as [|ep eps IH]; intros iEP ix; simpl.
  - reflexivity.
  - rewrite IH, index_body_find.
    destruct (last_position key eps (iEP + 1)); [reflexivity|].
    destruct (decide (key_of ep = key)); reflexivity.
Qed.

Lemma index_loop_cerr (eps : list EventPlane) (iEP : Z) (ix : Index) :
  index_cerr (index_loop eps iEP ix) =
  index_cerr ix ++ duplicate_warnings (dom (epIndexMap ix)) eps.
Proof.
  revert iEP ix. induction eps as [|ep eps IH]; intros iEP ix; simpl.
  - rewrite app_nil_r. reflexivity.
  - rewrite IH, index_body_cerr, index_body_dom, <- app_assoc. reflexivity.
Qed.

Lemma index_loop_size (eps : list EventPlane) (iEP : Z) (ix : Index) :
  (length (index_cerr (index_loop eps iEP ix))
   + size (epIndexMap (index_loop eps iEP ix)) =
   length (index_cerr ix) + size (epIndexMap ix) + length eps)%nat.
Proof.
  revert iEP ix. induction eps as [|ep eps IH]; intros iEP ix; simpl.
  - lia.
  - rewrite IH. unfold index_body. simpl.
    destruct (epIndexMap ix !! (ep_RUNNUMBER ep, ep_EVENTNUMBER ep)) as [j|] eqn:E.
    + rewrite map_size_insert_Some by eauto. rewrite length_app. simpl. lia.
    + rewrite map_size_insert_None by exact E. lia.
Qed.

Lemma last_position_app (key : Key) (l1 l2 : list EventPlane) (iEP : Z) :
  last_position key (l1 ++ l2) iEP =
  match last_position key l2 (iEP + Z.of_nat (length l1)) with
  | Some j => Some j
  | None => last_position key l1 iEP
  end.
Proof.
  revert iEP. induction l1 as [|ep l1 IH]; intros iEP.
  - simpl. rewrite Z.add_0_r.
    destruct (last_position key l2 iEP); reflexivity.
  - cbn [app last_position length]. rewrite IH, Nat2Z.inj_succ.
    replace (iEP + Z.succ (Z.of_nat (length l1)))
      with (iEP + 1 + Z.of_nat (length l1)) by lia.
    destruct (last_position key l2 (iEP + 1 + Z.of_nat (length l1)));
      reflexivity.
Qed.

Lemma last_position_absent (key : Key) (eps : list EventPlane) (iEP : Z) :
  (forall ep, In ep eps -> key_of ep <> key) ->
  last_position key eps iEP = None.
Proof.
  revert iEP. induction eps as [|ep eps IH]; intros iEP H; simpl.
  - reflexivity.
  - rewrite IH by (intros ep' Hin; apply H; right; exact Hin).
    rewrite decide_False; [reflexivity|]. apply H. left. reflexivity.
Qed.

(** C6: after the index is built over a stream, a key is found at the
    position of the last entry that carries it, and is not found when no
    entry carries it; each insertion of a key already present sends exactly
    one duplicate-key warning to [std::cerr] and an insertion of a new key
    sends none, so that the warnings and the keys of the map together
    number the entries of the stream; for two entries with the same key
    (such as the two samples of run 1, event 1) the key is found at
    position 1, the second entry, and one warning is printed. *)
Theorem index_last_write_wins :
  (forall eps key,
     epIndexMap_find (build_index eps) key = last_position key eps 0) /\
  (forall pre ep1 mid ep2 post,
     key_of ep1 = key_of ep2 ->
     (forall ep, In ep post -> key_of ep <> key_of ep2) ->
     epIndexMap_find (build_index (pre ++ ep1 :: mid ++ ep2 :: post))
       (key_of ep2) =
     Some (Z.of_nat (length pre + 1 + length mid))) /\
  (forall eps key,
     (forall ep, In ep eps -> key_of ep <> key) ->
     epIndexMap_find (build_index eps) key = None) /\
  (forall iEP ep ix,
     index_cerr (index_body iEP ep ix) =
     index_cerr ix ++
     match epIndexMap_find ix (key_of ep) with
     | Some _ => [DuplicateEPKey (ep_RUNNUMBER ep) (ep_EVENTNUMBER ep)]
     | None => []
     end) /\
  (forall eps,
     index_cerr (build_index eps) = duplicate_warnings ∅ eps /\
     (length (index_cerr (build_index eps))
      + size (epIndexMap (build_index eps)) = length eps)%nat) /\
  (forall ep1 ep2,
     key_of ep1 = key_of ep2 ->
     epIndexMap_find (build_index [ep1; ep2]) (key_of ep2) = Some 1 /\
     index_cerr (build_index [ep1; ep2]) =
       [DuplicateEPKey (ep_RUNNUMBER ep2) (ep_EVENTNUMBER ep2)]) /\
  (epIndexMap_find (build_index [sample_ep_first; sample_ep_second])
     (1%N, 1%N) = Some 1 /\
   index_cerr (build_index [sample_ep_first; sample_ep_second]) =
     [DuplicateEPKey 1 1]).
Proof.
  assert (Hfind : forall eps key,
     epIndexMap_find (build_index eps) key = last_position key eps 0).
  { intros eps key. unfold build_index. rewrite index_loop_find.
    destruct (last_position key eps 0); reflexivity. }
  assert (Htwo : forall ep1 ep2,
     key_of ep1 = key_of ep2 ->
     epIndexMap_find (build_index [ep1; ep2]) (key_of ep2) = Some 1 /\
     index_cerr (build_index [ep1; ep2]) =
       [DuplicateEPKey (ep_RUNNUMBER ep2) (ep_EVENTNUMBER ep2)]).
  { intros ep1 ep2 Hk. split.
    - rewrite Hfind. simpl. rewrite decide_True by reflexivity. reflexivity.
    - unfold build_index. rewrite index_loop_cerr. simpl.
      rewrite dom_empty_L.
      rewrite decide_False by set_solver.
      rewrite decide_True by (rewrite Hk; set_solver).
      reflexivity. }
  split; [exact Hfind|].
  split; [|split; [|split; [|split; [|split]]]].
  - intros pre ep1 mid ep2 post Hk Hpost.
    rewrite Hfind, last_position_app. cbn [last_position].
    rewrite last_position_app. cbn [last_position].
    rewrite (last_position_absent _ post) by exact Hpost.
    rewrite decide_True by reflexivity.
    f_equal. lia.
  - intros eps key H. rewrite Hfind. apply last_position_absent, H.
  - intros iEP ep ix. rewrite index_body_cerr. unfold epIndexMap_find.
    destruct (epIndexMap ix !! key_of ep) as [j|] eqn:E.
    + rewrite decide_True; [reflexivity|]. apply elem_of_dom. eauto.
    + rewrite decide_False; [reflexivity|]. apply not_elem_of_dom, E.
  - intros eps. unfold build_index. split.
    + rewrite index_loop_cerr. simpl. rewrite dom_empty_L. reflexivity.
    + rewrite index_loop_size. simpl. rewrite map_size_empty. lia.
  - exact Htwo.
  - exact (Htwo sample_ep_first sample_ep_second eq_refl).
Qed.

Lemma index_last_write_wins_witness :
  key_of sample_ep_first = key_of sample_ep_second /\
  epIndexMap_find (build_index [sample_ep_first; sample_ep_second])
    (key_of sample_ep_second) = Some 1.
Proof.
  split; [reflexivity|].
  exact (proj1 (proj1 (proj2 (proj2 (proj2 (proj2 (proj2
           index_last_write_wins)))))
           sample_ep_first sample_ep_second eq_refl)).
Defined.

(** ** The selection cuts *)

Lemma check_fst (b : bool) (y : Cut) (kf : CutCounters * bool) (x : Cut) :
  fst (check b y kf) x = fst kf x + (if b && Cut_eqb y x then 1 else 0).
Proof.
  unfold check, bump. destruct b; simpl; [|lia].
  destruct (Cut_eqb y x); lia.
Qed.

Lemma check_snd (b : bool) (y : Cut) (kf : CutCounters * bool) :
  snd (check b y kf) = b || snd kf.
Proof. unfold check. destruct b; reflexivity. Qed.

(** The test of line 141 is the printed condition [|PVZ| > 100]. *)
Lemma PVZ_condition (z : Q) :
  Qlt_bool z (-100) || Qlt_bool 100 z = Qlt_bool 100 (Qabs z).
Proof.
  destruct (Qlt_bool 100 (Qabs z)) eqn:Ha.
  - apply Qlt_bool_true in Ha.
    destruct (Qlt_bool z (-100)) eqn:Hlo; [reflexivity|].
    destruct (Qlt_bool 100 z) eqn:Hhi; [reflexivity|].
    apply Qlt_bool_false in Hlo, Hhi. exfalso.
    apply (Qlt_not_le _ _ Ha). apply Qabs_Qle_condition.
    split; [exact Hlo | exact Hhi].
  - apply Qlt_bool_false in Ha. apply Qabs_Qle_condition in Ha.
    destruct Ha as [Hlo Hhi].
    assert (Elo : Qlt_bool z (-100) = false)
      by (apply Qlt_bool_false; exact Hlo).
    assert (Ehi : Qlt_bool 100 z = false)
      by (apply Qlt_bool_false; exact Hhi).
    rewrite Elo, Ehi. reflexivity.
Qed.

(** Each counter moves by one exactly when its printed condition holds. *)
Lemma apply_cuts_fst (c : Candidate) (k : CutCounters) (x : Cut) :
  fst (apply_cuts c k) x = k x + (if printed_condition x c then 1 else 0).
Proof.
  unfold apply_cuts. cbv zeta. rewrite !check_fst. rewrite PVZ_condition.
  cbn [fst].
  destruct x; cbn [Cut_eqb printed_condition];
    rewrite ?andb_false_r, ?andb_true_r;
    match goal with
    | |- context [if ?b then 1 else 0] => destruct b
    | _ => idtac
    end; lia.
Qed.

(** The flag [fail] is set exactly when one of the twelve conditions
    holds. *)
Lemma apply_cuts_snd (c : Candidate) (k : CutCounters) :
  snd (apply_cuts c k) = negb (passes_all_cuts c).
Proof.
  unfold apply_cuts, passes_all_cuts, twelve_cuts. cbv zeta.
  rewrite !check_snd. rewrite PVZ_condition.
  cbn [snd forallb printed_condition].
  repeat match goal with
         | |- (?b || _) = _ => destruct b; cbn [orb negb andb]
         end;
  rewrite ?orb_true_r, ?andb_false_r; reflexivity.
Qed.

Lemma condition_fails_cuts (x : Cut) (c : Candidate) :
  printed_condition x c = true -> passes_all_cuts c = false.
Proof.
  intros H. unfold passes_all_cuts, twelve_cuts. cbn [forallb].
  destruct x; try discriminate H; rewrite H; cbn [negb andb];
    rewrite ?andb_false_r; reflexivity.
Qed.

Lemma fails_cuts_condition (c : Candidate) :
  passes_all_cuts c = false ->
  exists x, In x twelve_cuts /\ printed_condition x c = true.
Proof.
  unfold passes_all_cuts. intros H.
  destruct (forallb (fun x => negb (printed_condition x c)) twelve_cuts) eqn:E;
    [discriminate|].
  clear H. induction twelve_cuts as [|x l IH]; [discriminate|].
  simpl in E. destruct (printed_condition x c) eqn:Ex.
  - exists x. split; [left; reflexivity | exact Ex].
  - simpl in E. destruct (IH E) as (y & Hy & Ey).
    exists y. split; [right; exact Hy | exact Ey].
Qed.

(** The body of the candidate loop, by the three ways it can end. *)
Lemma candidate_body_failed (ix : Index) (c : Candidate) (s : Stats) :
  passes_all_cuts c = false ->
  candidate_body ix c s =
  mkStats (noMatch s) (totalLambdas s + 1) (failedCuts s + 1) (saved s)
    (fst (apply_cuts c (cuts s))) ({[RUNNUMBER c]} ∪ runNumbersInLambda s)
    (lookups s) (match_cerr s) (filled s).
Proof.
  intros H. unfold candidate_body.
  pose proof (apply_cuts_snd c (cuts s)) as Hs. rewrite H in Hs.
  destruct (apply_cuts c (cuts s)) as [k fail]. simpl in Hs. subst fail.
  reflexivity.
Qed.

Lemma candidate_body_unmatched (ix : Index) (c : Candidate) (s : Stats) :
  passes_all_cuts c = true ->
  epIndexMap_find ix (candidate_key c) = None ->
  candidate_body ix c s =
  mkStats (noMatch s + 1) (totalLambdas s + 1) (failedCuts s) (saved s)
    (fst (apply_cuts c (cuts s))) ({[RUNNUMBER c]} ∪ runNumbersInLambda s)
    (lookups s ++ [candidate_key c])
    (match_cerr s ++
       [NoEPMatch (RUNNUMBER c) (EVENTNUMBER c) (nBackTracks c) (nVeloTracks c)])
    (filled s).
Proof.
  intros H Hf. unfold candidate_body.
  pose proof (apply_cuts_snd c (cuts s)) as Hs. rewrite H in Hs.
  destruct (apply_cuts c (cuts s)) as [k fail]. simpl in Hs. subst fail.
  unfold candidate_key in Hf. cbv zeta. rewrite Hf. reflexivity.
Qed.

Lemma candidate_body_matched (ix : Index) (c : Candidate) (s : Stats)
    (iEP : Z) :
  passes_all_cuts c = true ->
  epIndexMap_find ix (candidate_key c) = Some iEP ->
  candidate_body ix c s =
  mkStats (noMatch s) (totalLambdas s + 1) (failedCuts s) (saved s + 1)
    (fst (apply_cuts c (cuts s))) ({[RUNNUMBER c]} ∪ runNumbersInLambda s)
    (lookups s ++ [candidate_key c]) (match_cerr s) (filled s ++ [iEP]).
Proof.
  intros H Hf. unfold candidate_body.
  pose proof (apply_cuts_snd c (cuts s)) as Hs. rewrite H in Hs.
  destruct (apply_cuts c (cuts s)) as [k fail]. simpl in Hs. subst fail.
  unfold candidate_key in Hf. cbv zeta. rewrite Hf. reflexivity.
Qed.

Lemma candidate_body_cuts (ix : Index) (c : Candidate) (s : Stats) (x : Cut) :
  cuts (candidate_body ix c s) x =
  cuts s x + (if printed_condition x c then 1 else 0).
Proof.
  rewrite <- apply_cuts_fst.
  destruct (passes_all_cuts c) eqn:Hp.
  - destruct (epIndexMap_find ix (candidate_key c)) as [iEP|] eqn:Hf.
    + rewrite (candidate_body_matched ix c s iEP Hp Hf). reflexivity.
    + rewrite (candidate_body_unmatched ix c s Hp Hf). reflexivity.
  - rewrite (candidate_body_failed ix c s Hp). reflexivity.
Qed.

(** C7: in the body of the candidate loop each cut counter goes up by one
    exactly when the condition printed next to it holds of the candidate,
    whatever the other conditions (the declared, never tested
    [cut_L0_BPVIPCHI2] stays put); a candidate for which some condition
    holds is counted in [failedCuts], is not looked up in the index and
    leaves [noMatch], [saved], the output tree and [std::cerr] as they
    were, while a candidate for which none holds is looked up once; in
    particular with [p_PT < 500], as for the sample candidate of run 274156,
    event 42, [cut_p_PT] goes up by one, no lookup is made and [noMatch]
    is unchanged, even when the index holds the key. *)
Theorem cut_counters_independent :
  (forall ix c s x,
     cuts (candidate_body ix c s) x =
     cuts s x + (if printed_condition x c then 1 else 0)) /\
  (forall ix c s x, printed_condition x c = true ->
     let s' := candidate_body ix c s in
     lookups s' = lookups s /\ noMatch s' = noMatch s /\
     saved s' = saved s /\ filled s' = filled s /\
     match_cerr s' = match_cerr s /\ failedCuts s' = failedCuts s + 1) /\
  (forall ix c s, passes_all_cuts c = true ->
     lookups (candidate_body ix c s) = lookups s ++ [candidate_key c]) /\
  (forall ix c s, (p_PT c < 500)%Q ->
     let s' := candidate_body ix c s in
     cuts s' cut_p_PT = cuts s cut_p_PT + 1 /\
     lookups s' = lookups s /\ noMatch s' = noMatch s) /\
  (forall eps s,
     let ix := build_index (sample_ep_matching :: eps) in
     let s' := candidate_body ix sample_low_pt s in
     candidate_key sample_low_pt = (274156%N, 42%N) /\
     is_Some (epIndexMap_find ix (274156%N, 42%N)) /\
     cuts s' cut_p_PT = cuts s cut_p_PT + 1 /\
     (forall x, x <> cut_p_PT -> cuts s' x = cuts s x) /\
     lookups s' = lookups s /\ noMatch s' = noMatch s).
Proof.
  assert (Hfail : forall ix c s x, printed_condition x c = true ->
     let s' := candidate_body ix c s in
     lookups s' = lookups s /\ noMatch s' = noMatch s /\
     saved s' = saved s /\ filled s' = filled s /\
     match_cerr s' = match_cerr s /\ failedCuts s' = failedCuts s + 1).
  { intros ix c s x Hx. cbv zeta.
    rewrite (candidate_body_failed ix c s (condition_fails_cuts x c Hx)).
    repeat split; reflexivity. }
  split; [exact candidate_body_cuts|].
  split; [exact Hfail|].
  split; [|split].
  - intros ix c s Hp.
    destruct (epIndexMap_find ix (candidate_key c)) as [iEP|] eqn:Hf.
    + rewrite (candidate_body_matched ix c s iEP Hp Hf). reflexivity.
    + rewrite (candidate_body_unmatched ix c s Hp Hf). reflexivity.
  - intros ix c s Hpt. cbv zeta.
    assert (Hx : printed_condition cut_p_PT c = true)
      by (apply Qlt_bool_true; exact Hpt).
    rewrite candidate_body_cuts, Hx.
    destruct (Hfail ix c s cut_p_PT Hx) as (Hl & Hn & _).
    repeat split; [exact Hl | exact Hn].
  - intros eps s. cbv zeta.
    assert (Hx : printed_condition cut_p_PT sample_low_pt = true)
      by reflexivity.
    destruct (Hfail (build_index (sample_ep_matching :: eps))
                sample_low_pt s cut_p_PT Hx) as (Hl & Hn & _).
    split; [reflexivity|].
    split.
    { unfold build_index. rewrite index_loop_find. cbn [last_position].
      destruct (last_position (274156%N, 42%N) eps (0 + 1)); [eauto|].
      rewrite decide_True by reflexivity. eauto. }
    split; [rewrite candidate_body_cuts, Hx; reflexivity|].
    split; [|split; [exact Hl | exact Hn]].
    intros x Hne. rewrite candidate_body_cuts.
    destruct x; try reflexivity; try (simpl; lia). congruence.
Qed.

Lemma cut_counters_independent_witness :
  (p_PT sample_low_pt < 500)%Q /\
  cuts (candidate_body (build_index []) sample_low_pt init_stats) cut_p_PT
  = cuts init_stats cut_p_PT + 1.
Proof.
  assert (H : (p_PT sample_low_pt < 500)%Q) by reflexivity.
  split; [exact H|].
  exact (proj1 (proj1 (proj2 (proj2 (proj2 cut_counters_independent)))
                  (build_index []) sample_low_pt init_stats H)).
Defined.

(** ** The running totals *)

Lemma candidate_loop_app (ix : Index) (cs1 cs2 : list Candidate) (s : Stats) :
  candidate_loop ix (cs1 ++ cs2) s =
  candidate_loop ix cs2 (candidate_loop ix cs1 s).
Proof.
  revert s. induction cs1 as [|c cs1 IH]; intros s; simpl;
    [reflexivity | apply IH].
Qed.

(** The three ways the body can end, on the four totals. *)
Lemma candidate_body_totals (ix : Index) (c : Candidate) (s : Stats) :
  let s' := candidate_body ix c s in
  totalLambdas s' = totalLambdas s + 1 /\
  failedCuts s' = failedCuts s + (if passes_all_cuts c then 0 else 1) /\
  noMatch s' = noMatch s + (if unmatched ix c then 1 else 0) /\
  saved s' = saved s + (if matched ix c then 1 else 0).
Proof.
  cbv zeta. unfold unmatched, matched.
  destruct (passes_all_cuts c) eqn:Hp.
  - destruct (epIndexMap_find ix (candidate_key c)) as [iEP|] eqn:Hf.
    + rewrite (candidate_body_matched ix c s iEP Hp Hf). simpl. lia.
    + rewrite (candidate_body_unmatched ix c s Hp Hf). simpl. lia.
  - rewrite (candidate_body_failed ix c s Hp). simpl. lia.
Qed.

Lemma candidate_loop_totals (ix : Index) (cs : list Candidate) (s : Stats) :
  let s' := candidate_loop ix cs s in
  totalLambdas s' = totalLambdas s + Z.of_nat (length cs) /\
  failedCuts s' =
    failedCuts s + count_if (fun c => negb (passes_all_cuts c)) cs /\
  noMatch s' = noMatch s + count_if (unmatched ix) cs /\
  saved s' = saved s + count_if (matched ix) cs.
Proof.
  revert s. induction cs as [|c cs IH]; intros s.
  - simpl. lia.
  - cbn [candidate_loop]. cbv zeta.
    destruct (IH (candidate_body ix c s)) as (Ht & Hf & Hn & Hs).
    destruct (candidate_body_totals ix c s) as (Ht' & Hf' & Hn' & Hs').
    rewrite Ht, Hf, Hn, Hs, Ht', Hf', Hn', Hs'.
    cbn [count_if length]. rewrite Nat2Z.inj_succ.
    destruct (passes_all_cuts c); simpl; lia.
Qed.

Lemma candidate_loop_cuts (ix : Index) (cs : list Candidate) (s : Stats)
    (x : Cut) :
  cuts (candidate_loop ix cs s) x =
  cuts s x + count_if (printed_condition x) cs.
Proof.
  revert s. induction cs as [|c cs IH]; intros s.
  - simpl. lia.
  - cbn [candidate_loop count_if]. rewrite IH, candidate_body_cuts. lia.
Qed.

(** No counter of the candidate loop exceeds the number of candidates
    read: the [int] counters of the source do not overflow as long as the
    tree has fewer than 2^31 entries. *)
Lemma totals_bounded (ix : Index) (cs : list Candidate) :
  let s := candidate_loop ix cs init_stats in
  let n := Z.of_nat (length cs) in
  totalLambdas s = n /\ 0 <= failedCuts s <= n /\ 0 <= noMatch s <= n /\
  0 <= saved s <= n /\ forall x, 0 <= cuts s x <= n.
Proof.
  cbv zeta.
  destruct (candidate_loop_totals ix cs init_stats) as (Ht & Hf & Hn & Hs).
  rewrite Ht, Hf, Hn, Hs. simpl.
  pose proof (count_if_bounds (fun c => negb (passes_all_cuts c)) cs).
  pose proof (count_if_bounds (unmatched ix) cs).
  pose proof (count_if_bounds (matched ix) cs).
  repeat split; try lia;
    rewrite candidate_loop_cuts; simpl;
    pose proof (count_if_bounds (printed_condition x) cs); lia.
Qed.

(** C8: each pass through the body of the candidate loop adds one to
    [totalLambdas] and one to exactly one of [failedCuts], [noMatch] and
    [saved], and [noMatch] only for a candidate that passes the twelve cuts
    and whose key is not in the index; hence after any number of
    iterations, and at the end of the loop, [totalLambdas = failedCuts +
    noMatch + saved], [noMatch] is the number of candidates read so far
    that pass the cuts and are not in the index, and it is at most
    [totalLambdas - failedCuts]. *)
Theorem totals_partition_candidates :
  (forall ix c s,
     let s' := candidate_body ix c s in
     totalLambdas s' = totalLambdas s + 1 /\
     ((failedCuts s' = failedCuts s + 1 /\ noMatch s' = noMatch s /\
       saved s' = saved s /\ passes_all_cuts c = false) \/
      (failedCuts s' = failedCuts s /\ noMatch s' = noMatch s + 1 /\
       saved s' = saved s /\ passes_all_cuts c = true /\
       epIndexMap_find ix (candidate_key c) = None) \/
      (failedCuts s' = failedCuts s /\ noMatch s' = noMatch s /\
       saved s' = saved s + 1 /\ passes_all_cuts c = true /\
       is_Some (epIndexMap_find ix (candidate_key c))))) /\
  (forall ix c s, totals_agree s -> totals_agree (candidate_body ix c s)) /\
  (forall ix done todo,
     let s := candidate_loop ix done init_stats in
     candidate_loop ix (done ++ todo) init_stats = candidate_loop ix todo s /\
     totalLambdas s = failedCuts s + noMatch s + saved s /\
     totalLambdas s = Z.of_nat (length done) /\
     failedCuts s = count_if (fun c => negb (passes_all_cuts c)) done /\
     noMatch s = count_if (unmatched ix) done /\
     saved s = count_if (matched ix) done /\
     0 <= noMatch s <= totalLambdas s - failedCuts s).
Proof.
  split; [|split].
  - intros ix c s. cbv zeta.
    destruct (candidate_body_totals ix c s) as (Ht & Hf & Hn & Hs).
    rewrite Ht, Hf, Hn, Hs. unfold unmatched, matched.
    split; [reflexivity|].
    destruct (passes_all_cuts c).
    + destruct (epIndexMap_find ix (candidate_key c)) as [iEP|].
      * right; right. simpl. repeat split; try lia. eauto.
      * right; left. simpl. repeat split; lia.
    + left. simpl. repeat split; lia.
  - intros ix c s H. unfold totals_agree in *.
    destruct (candidate_body_totals ix c s) as (Ht & Hf & Hn & Hs).
    rewrite Ht, Hf, Hn, Hs, H. unfold unmatched, matched.
    destruct (passes_all_cuts c);
      [destruct (epIndexMap_find ix (candidate_key c))|]; simpl; lia.
  - intros ix done todo. cbv zeta.
    split; [apply candidate_loop_app|].
    destruct (candidate_loop_totals ix done init_stats) as (Ht & Hf & Hn & Hs).
    rewrite Ht, Hf, Hn, Hs. simpl.
    assert (Hsum : Z.of_nat (length done) =
              count_if (fun c => negb (passes_all_cuts c)) done
              + count_if (unmatched ix) done + count_if (matched ix) done).
    { clear. induction done as [|c cs IH]; [reflexivity|].
      cbn [count_if length]. rewrite Nat2Z.inj_succ.
      unfold unmatched, matched in *.
      destruct (passes_all_cuts c);
        [destruct (epIndexMap_find ix (candidate_key c))|]; simpl; lia. }
    pose proof (count_if_bounds (unmatched ix) done).
    pose proof (count_if_bounds (matched ix) done).
    repeat split; lia.
Qed.

Lemma totals_partition_candidates_witness :
  totals_agree init_stats /\
  totals_agree (candidate_body (build_index []) sample_candidate init_stats).
Proof.
  assert (H : totals_agree init_stats) by reflexivity.
  split; [exact H|].
  exact (proj1 (proj2 totals_partition_candidates)
           (build_index []) sample_candidate init_stats H).
Defined.

(** * Further properties of GlobalPolarizationAnalysis_FilePrep.C *)

(** ** What the index returns *)

Lemma last_position_sound (key : Key) (eps : list EventPlane) (iEP j : Z) :
  last_position key eps iEP = Some j ->
  iEP <= j < iEP + Z.of_nat (length eps) /\
  exists ep, eps !! Z.to_nat (j - iEP) = Some ep /\ key_of ep = key.
Proof.
  revert iEP. induction eps as [|ep eps IH]; intros iEP; [discriminate|].
  cbn [last_position length]. rewrite Nat2Z.inj_succ.
  destruct (last_position key eps (iEP + 1)) as [j'|] eqn:E.
  - intros [= <-]. destruct (IH _ E) as (Hr & ep' & Hl & Hk).
    split; [lia|]. exists ep'. split; [|exact Hk].
    replace (Z.to_nat (j' - iEP)) with (S (Z.to_nat (j' - (iEP + 1)))) by lia.
    exact Hl.
  - destruct (decide (key_of ep = key)) as [Hk|]; [|discriminate].
    intros [= <-]. split; [lia|]. exists ep.
    replace (Z.to_nat (iEP - iEP)) with 0%nat by lia. auto.
Qed.

Lemma last_position_present (key : Key) (eps : list EventPlane) (iEP : Z) :
  (exists ep, In ep eps /\ key_of ep = key) ->
  exists j, last_position key eps iEP = Some j.
Proof.
  revert iEP. induction eps as [|ep eps IH]; intros iEP (ep' & Hin & Hk);
    [destruct Hin|].
  cbn [last_position].
  destruct (last_position key eps (iEP + 1)) as [j'|] eqn:E; [eauto|].
  destruct Hin as [<- | Hin].
  - rewrite decide_True by exact Hk. eauto.
  - destruct (IH (iEP + 1)) as (j & Hj); [eauto|]. congruence.
Qed.

Lemma index_loop_dom (eps : list EventPlane) (iEP : Z) (ix : Index) :
  dom (epIndexMap (index_loop eps iEP ix)) =
  dom (epIndexMap ix) ∪ list_to_set (map key_of eps).
Proof.
  revert iEP ix. induction eps as [|ep eps IH]; intros iEP ix; simpl.
  - rewrite union_empty_r_L. reflexivity.
  - rewrite IH, index_body_dom.
    rewrite (union_comm_L {[key_of ep]} (dom (epIndexMap ix))).
    rewrite <- union_assoc_L. reflexivity.
Qed.

(** X10: a key found in the index is found at a valid position of the
    event-plane tree, and the entry stored there carries that key; a key
    is found exactly when some entry carries it; the keys of the map are
    the distinct keys of the tree, so the number printed by line 76 is the
    number of distinct (run, event) pairs. *)
Theorem index_round_trip (eps : list EventPlane) :
  let ix := build_index eps in
  (forall key j, epIndexMap_find ix key = Some j ->
     0 <= j < Z.of_nat (length eps) /\
     exists ep, eps !! Z.to_nat j = Some ep /\ key_of ep = key) /\
  (forall key, is_Some (epIndexMap_find ix key) <->
     exists ep, In ep eps /\ key_of ep = key) /\
  dom (epIndexMap ix) = list_to_set (map key_of eps) /\
  size (epIndexMap ix) = size (list_to_set (map key_of eps) : gset Key).
Proof.
  cbv zeta.
  assert (Hfind : forall key,
            epIndexMap_find (build_index eps) key = last_position key eps 0).
  { intros key. unfold build_index. rewrite index_loop_find.
    destruct (last_position key eps 0); reflexivity. }
  assert (Hdom : dom (epIndexMap (build_index eps)) =
                 list_to_set (map key_of eps)).
  { unfold build_index. rewrite index_loop_dom. simpl.
    rewrite dom_empty_L, union_empty_l_L. reflexivity. }
  split; [|split; [|split]].
  - intros key j Hj. rewrite Hfind in Hj.
    destruct (last_position_sound key eps 0 j Hj) as (Hr & ep & Hl & Hk).
    rewrite Z.sub_0_r in Hl. split; [lia | eauto].
  - intros key. rewrite Hfind. split.
    + intros [j Hj].
      destruct (last_position_sound key eps 0 j Hj) as (_ & ep & Hl & Hk).
      exists ep. split; [|exact Hk].
      apply list_elem_of_In, list_elem_of_lookup. eauto.
    + intros H. destruct (last_position_present key eps 0 H) as (j & Hj).
      rewrite Hj. eauto.
  - exact Hdom.
  - rewrite <- Hdom. symmetry. apply size_dom.
Qed.

Lemma index_round_trip_witness :
  epIndexMap_find (build_index [sample_ep_first; sample_ep_second])
    (1%N, 1%N) = Some 1 /\
  exists ep, [sample_ep_first; sample_ep_second] !! Z.to_nat 1 = Some ep /\
             key_of ep = (1%N, 1%N).
Proof.
  assert (H : epIndexMap_find (build_index [sample_ep_first; sample_ep_second])
                (1%N, 1%N) = Some 1) by reflexivity.
  split; [exact H|].
  exact (proj2 (proj1 (index_round_trip [sample_ep_first; sample_ep_second])
                  (1%N, 1%N) 1 H)).
Defined.

(** ** What the candidate loop records *)

Lemma candidate_body_logs (ix : Index) (c : Candidate) (s : Stats) :
  let s' := candidate_body ix c s in
  lookups s' =
    lookups s ++ (if passes_all_cuts c then [candidate_key c] else []) /\
  filled s' =
    filled s ++ match pairing ix c with Some j => [j] | None => [] end /\
  match_cerr s' =
    match_cerr s ++ (if unmatched ix c then [no_match_line c] else []) /\
  runNumbersInLambda s' = {[RUNNUMBER c]} ∪ runNumbersInLambda s.
Proof.
  cbv zeta. unfold pairing, unmatched, no_match_line.
  destruct (passes_all_cuts c) eqn:Hp.
  - destruct (epIndexMap_find ix (candidate_key c)) as [iEP|] eqn:Hf.
    + rewrite (candidate_body_matched ix c s iEP Hp Hf). simpl.
      rewrite !app_nil_r. auto.
    + rewrite (candidate_body_unmatched ix c s Hp Hf). simpl.
      rewrite !app_nil_r. auto.
  - rewrite (candidate_body_failed ix c s Hp). simpl.
    rewrite !app_nil_r. auto.
Qed.

Lemma candidate_loop_logs (ix : Index) (cs : list Candidate) (s : Stats) :
  let s' := candidate_loop ix cs s in
  lookups s' =
    lookups s ++ map candidate_key (List.filter passes_all_cuts cs) /\
  filled s' = filled s ++ omap (pairing ix) cs /\
  match_cerr s' =
    match_cerr s ++ map no_match_line (List.filter (unmatched ix) cs) /\
  runNumbersInLambda s' =
    runNumbersInLambda s ∪ list_to_set (map RUNNUMBER cs).
Proof.
  cbv zeta. revert s. induction cs as [|c cs IH]; intros s.
  - simpl. rewrite !app_nil_r, union_empty_r_L. auto.
  - cbn [candidate_loop].
    destruct (IH (candidate_body ix c s)) as (-> & -> & -> & ->).
    destruct (candidate_body_logs ix c s) as (-> & -> & -> & ->).
    cbn [List.filter map list_to_set].
    change (omap (pairing ix) (c :: cs))
      with (match pairing ix c with
            | Some j => j :: omap (pairing ix) cs
            | None => omap (pairing ix) cs
            end).
    rewrite <- !app_assoc.
    repeat split.
    + destruct (passes_all_cuts c); reflexivity.
    + destruct (pairing ix c); reflexivity.
    + destruct (unmatched ix c); reflexivity.
    + rewrite (union_comm_L {[RUNNUMBER c]} (runNumbersInLambda s)).
      rewrite <- union_assoc_L. reflexivity.
Qed.

Lemma count_if_filter {A : Type} (p : A -> bool) (l : list A) :
  count_if p l = Z.of_nat (length (List.filter p l)).
Proof.
  induction l as [|x l IH]; simpl; [reflexivity|].
  destruct (p x); simpl length; lia.
Qed.

Lemma length_omap_pairing (ix : Index) (cs : list Candidate) :
  Z.of_nat (length (omap (pairing ix) cs)) = count_if (matched ix) cs.
Proof.
  induction cs as [|c cs IH]; [reflexivity|].
  change (omap (pairing ix) (c :: cs))
    with (match pairing ix c with
          | Some j => j :: omap (pairing ix) cs
          | None => omap (pairing ix) cs
          end).
  cbn [count_if]. unfold pairing, matched in *.
  destruct (passes_all_cuts c);
    [destruct (epIndexMap_find ix (candidate_key c))|];
    simpl length; simpl andb; lia.
Qed.

(** X11: every candidate that passes the twelve cuts and is found in the
    index is paired with the position of an entry of the event-plane tree
    that has the candidate's own run and event numbers (the last such
    entry); the entries loaded before the fills of the output tree are
    these positions, in the order of the candidates, as many as [saved];
    with an empty event-plane tree no candidate is saved. *)
Theorem matched_same_event (eps : list EventPlane) (cs : list Candidate) :
  let ix := build_index eps in
  let s := candidate_loop ix cs init_stats in
  filled s = omap (pairing ix) cs /\
  Z.of_nat (length (filled s)) = saved s /\
  (forall c j, pairing ix c = Some j ->
     passes_all_cuts c = true /\
     exists ep, eps !! Z.to_nat j = Some ep /\
       ep_RUNNUMBER ep = RUNNUMBER c /\ ep_EVENTNUMBER ep = EVENTNUMBER c) /\
  (eps = [] -> saved s = 0 /\ filled s = [] /\
               noMatch s = count_if passes_all_cuts cs).
Proof.
  cbv zeta.
  destruct (candidate_loop_logs (build_index eps) cs init_stats)
    as (_ & Hf & _).
  destruct (candidate_loop_totals (build_index eps) cs init_stats)
    as (_ & _ & Hn & Hs).
  cbn [init_stats filled saved noMatch app Z.add] in Hf, Hn, Hs.
  split; [exact Hf|]. split; [|split].
  - rewrite Hf, Hs. apply length_omap_pairing.
  - intros c j Hp. unfold pairing in Hp.
    destruct (passes_all_cuts c); [|discriminate].
    split; [reflexivity|].
    unfold build_index in Hp. rewrite index_loop_find in Hp.
    destruct (last_position (candidate_key c) eps 0) as [j'|] eqn:E;
      [|discriminate].
    injection Hp as <-.
    destruct (last_position_sound _ _ _ _ E) as (_ & ep & Hl & Hk).
    rewrite Z.sub_0_r in Hl. exists ep. split; [exact Hl|].
    unfold key_of, candidate_key in Hk. injection Hk as H1 H2. auto.
  - intros ->.
    assert (Hm : forall c, matched (build_index []) c = false).
    { intros c. unfold matched. destruct (passes_all_cuts c); reflexivity. }
    assert (Hu : forall c, unmatched (build_index []) c = passes_all_cuts c).
    { intros c. unfold unmatched. destruct (passes_all_cuts c); reflexivity. }
    assert (Hp : forall c, pairing (build_index []) c = None).
    { intros c. unfold pairing. destruct (passes_all_cuts c); reflexivity. }
    rewrite Hs, Hf, Hn. clear Hs Hf Hn.
    induction cs as [|c cs IH]; [auto|].
    change (omap (pairing (build_index [])) (c :: cs))
      with (match pairing (build_index []) c with
            | Some j => j :: omap (pairing (build_index [])) cs
            | None => omap (pairing (build_index [])) cs
            end).
    cbn [count_if]. rewrite Hm, Hu, Hp.
    destruct IH as (I1 & -> & I3).
    destruct (passes_all_cuts c); repeat split; solve [reflexivity | lia].
Qed.

Lemma matched_same_event_witness :
  pairing (build_index [sample_ep_matching]) sample_candidate = Some 0 /\
  exists ep, [sample_ep_matching] !! Z.to_nat 0 = Some ep /\
    ep_RUNNUMBER ep = RUNNUMBER sample_candidate /\
    ep_EVENTNUMBER ep = EVENTNUMBER sample_candidate.
Proof.
  assert (H : pairing (build_index [sample_ep_matching]) sample_candidate
              = Some 0) by reflexivity.
  split; [exact H|].
  exact (proj2 (proj1 (proj2 (proj2
           (matched_same_event [sample_ep_matching] [])))
           sample_candidate 0 H)).
Defined.

(** X12: at the end of the candidate loop the keys looked up in the index
    are those of the candidates that pass the twelve cuts, one lookup
    each and in order, so their number is [noMatch + saved]; one line is
    sent to [std::cerr] for each candidate counted in [noMatch] and it
    names that candidate; the set of run numbers holds the run number of
    every candidate read, failing or not, and nothing else. *)
Theorem candidate_loop_records (ix : Index) (cs : list Candidate) :
  let s := candidate_loop ix cs init_stats in
  lookups s = map candidate_key (List.filter passes_all_cuts cs) /\
  Z.of_nat (length (lookups s)) = noMatch s + saved s /\
  match_cerr s = map no_match_line (List.filter (unmatched ix) cs) /\
  Z.of_nat (length (match_cerr s)) = noMatch s /\
  (forall run, run ∈ runNumbersInLambda s <->
     exists c, In c cs /\ RUNNUMBER c = run).
Proof.
  cbv zeta.
  destruct (candidate_loop_logs ix cs init_stats) as (Hl & _ & Hc & Hr).
  destruct (candidate_loop_totals ix cs init_stats) as (_ & _ & Hn & Hs).
  cbn [init_stats lookups match_cerr runNumbersInLambda saved noMatch app
         Z.add] in Hl, Hc, Hr, Hn, Hs.
  rewrite Hl, Hc, Hr, Hn, Hs, !length_map, <- !count_if_filter.
  repeat split.
  - clear. induction cs as [|c cs IH]; [reflexivity|].
    cbn [count_if].
    assert (E : (if passes_all_cuts c then 1 else 0) =
                (if unmatched ix c then 1 else 0)
                + (if matched ix c then 1 else 0)).
    { unfold unmatched, matched.
      destruct (passes_all_cuts c);
        [destruct (epIndexMap_find ix (candidate_key c))|]; reflexivity. }
    lia.
  - rewrite union_empty_l_L, elem_of_list_to_set, list_elem_of_fmap.
    intros (c & -> & Hin). exists c. split; [|reflexivity].
    apply list_elem_of_In, Hin.
  - rewrite union_empty_l_L, elem_of_list_to_set, list_elem_of_fmap.
    intros (c & Hin & <-). exists c. split; [reflexivity|].
    apply list_elem_of_In, Hin.
Qed.

Lemma candidate_loop_records_witness :
  274156%N ∈ runNumbersInLambda
    (candidate_loop (build_index []) [sample_low_pt] init_stats).
Proof.
  apply (proj2 (proj2 (proj2 (proj2
           (candidate_loop_records (build_index []) [sample_low_pt]))))).
  exists sample_low_pt. split; [left; reflexivity | reflexivity].
Defined.

(** ** The cut breakdown *)

Lemma count_if_le {A : Type} (p q : A -> bool) (l : list A) :
  (forall x, p x = true -> q x = true) -> count_if p l <= count_if q l.
Proof.
  intros H. induction l as [|x l IH]; simpl; [lia|].
  destruct (p x) eqn:E; [rewrite (H x E); lia|].
  destruct (q x); lia.
Qed.

Lemma cut_sum_loop (ix : Index) (cs : list Candidate) (s : Stats) :
  cut_sum (cuts (candidate_loop ix cs s)) =
  cut_sum (cuts s)
  + fold_right Z.add 0
      (map (fun c =>
              fold_right Z.add 0
                (map (fun x => if printed_condition x c then 1 else 0)
                     twelve_cuts)) cs).
Proof.
  revert s. induction cs as [|c cs IH]; intros s.
  - simpl. lia.
  - cbn [candidate_loop map fold_right]. rewrite IH.
    unfold cut_sum, twelve_cuts. cbn [map fold_right].
    rewrite !candidate_body_cuts. lia.
Qed.

Lemma flags_sum {A : Type} (f : A -> bool) (l : list A) :
  let n := fold_right Z.add 0 (map (fun x => if f x then 1 else 0) l) in
  let b := if forallb (fun x => negb (f x)) l then 0 else 1 in
  0 <= n <= Z.of_nat (length l) /\ b <= n /\ (b = 0 -> n = 0).
Proof.
  cbv zeta. induction l as [|x l IH]; [simpl; lia|].
  cbn [map fold_right forallb length]. rewrite Nat2Z.inj_succ.
  destruct (f x); cbn [negb andb];
    destruct (forallb (fun x => negb (f x)) l); lia.
Qed.

Lemma conditions_of_candidate (c : Candidate) :
  let n := fold_right Z.add 0
             (map (fun x => if printed_condition x c then 1 else 0)
                  twelve_cuts) in
  (if passes_all_cuts c then 0 else 1) <= n <=
  12 * (if passes_all_cuts c then 0 else 1).
Proof.
  cbv zeta. unfold passes_all_cuts.
  pose proof (flags_sum (fun x => printed_condition x c) twelve_cuts) as H.
  cbv zeta in H. change (Z.of_nat (length twelve_cuts)) with 12 in H.
  destruct (forallb (fun x => negb (printed_condition x c)) twelve_cuts); lia.
Qed.

(** X13: in the summary each of the thirteen cut counters is at most
    [failedCuts], the never-tested [cut_L0_BPVIPCHI2] is 0, and the twelve
    printed counters add up to at least [failedCuts] and at most twelve
    times [failedCuts]: a candidate failing several cuts is counted once in
    [failedCuts] and once in each of its cuts. *)
Theorem cut_breakdown_consistent (ix : Index) (cs : list Candidate) :
  let s := candidate_loop ix cs init_stats in
  (forall x, 0 <= cuts s x <= failedCuts s) /\
  cuts s cut_L0_BPVIPCHI2 = 0 /\
  failedCuts s <= cut_sum (cuts s) <= 12 * failedCuts s.
Proof.
  cbv zeta.
  destruct (candidate_loop_totals ix cs init_stats) as (_ & Hf & _).
  cbn [init_stats failedCuts Z.add] in Hf. rewrite Hf.
  split; [|split].
  - intros x. rewrite candidate_loop_cuts. cbn [init_stats cuts Z.add].
    split; [apply count_if_bounds|].
    apply count_if_le. intros c Hc.
    rewrite (condition_fails_cuts x c Hc). reflexivity.
  - rewrite candidate_loop_cuts. cbn [init_stats cuts Z.add].
    clear. induction cs as [|c cs IH]; [reflexivity|].
    cbn [count_if printed_condition]. exact IH.
  - rewrite cut_sum_loop.
    replace (cut_sum (cuts init_stats)) with 0 by reflexivity.
    clear. induction cs as [|c cs IH]; [simpl; lia|].
    cbn [map fold_right count_if].
    pose proof (conditions_of_candidate c) as Hc. cbv zeta in Hc.
    destruct (passes_all_cuts c); cbn [negb]; lia.
Qed.

(** ** The event-level cuts and the event selection *)

(** X14: the four event-level cuts of the candidate loop are the four
    tests of the event selection of [EventPlaneAnalysis]: an event is
    selected there exactly when none of the counters [cut_nBackTracks],
    [cut_nVeloTracks], [cut_nPVs], [cut_PVZ] would move; so a candidate
    that passes the twelve cuts always belongs to an event that passes
    that selection. *)
Theorem event_cuts_agree (c : Candidate) (e : EPAnalysis.Entry) :
  EPAnalysis.nPVs e = nPVs c ->
  EPAnalysis.nBackTracks e = nBackTracks c ->
  EPAnalysis.PVZ_0 e = PVZ_0 c ->
  EPAnalysis.nVeloTracks e = nVeloTracks c ->
  EPAnalysis.event_selection e =
    negb (printed_condition cut_nBackTracks c ||
          printed_condition cut_nVeloTracks c ||
          printed_condition cut_nPVs c || printed_condition cut_PVZ c) /\
  (passes_all_cuts c = true -> EPAnalysis.event_selection e = true).
Proof.
  intros H1 H2 H3 H4.
  assert (E : EPAnalysis.event_selection e =
    negb (printed_condition cut_nBackTracks c ||
          printed_condition cut_nVeloTracks c ||
          printed_condition cut_nPVs c || printed_condition cut_PVZ c)).
  { unfold EPAnalysis.event_selection. rewrite H1, H2, H3, H4.
    cbn [printed_condition]. rewrite <- PVZ_condition.
    destruct (nPVs c =? 1); destruct (nBackTracks c <? 10);
      destruct (nVeloTracks c <? 15);
      destruct (Qlt_bool (PVZ_0 c) (-100) || Qlt_bool 100 (PVZ_0 c));
      reflexivity. }
  split; [exact E|].
  intros Hp. rewrite E.
  destruct (printed_condition cut_nBackTracks c) eqn:A1;
    [rewrite (condition_fails_cuts _ _ A1) in Hp; discriminate|].
  destruct (printed_condition cut_nVeloTracks c) eqn:A2;
    [rewrite (condition_fails_cuts _ _ A2) in Hp; discriminate|].
  destruct (printed_condition cut_nPVs c) eqn:A3;
    [rewrite (condition_fails_cuts _ _ A3) in Hp; discriminate|].
  destruct (printed_condition cut_PVZ c) eqn:A4;
    [rewrite (condition_fails_cuts _ _ A4) in Hp; discriminate|].
  reflexivity.
Qed.

Lemma event_cuts_agree_witness :
  passes_all_cuts sample_candidate = true /\
  EPAnalysis.event_selection (event_of sample_candidate) = true.
Proof.
  split; [reflexivity|].
  apply (proj2 (event_cuts_agree sample_candidate (event_of sample_candidate)
                  eq_refl eq_refl eq_refl eq_refl)).
  reflexivity.
Defined.

(** ** The macro as a whole *)

(** X15: the macro reaches its summary exactly when the event-plane file
    and its tree, the output file, and the candidate file with its
    directory and its tree are all available; otherwise it stops at the
    first one missing after one line on [std::cerr], without reading any
    candidate; once the event-plane tree is read the duplicate-key
    warnings are printed and the number of distinct keys is reported
    whatever happens next, and the output file is created even if the
    candidate file then turns out to be unusable; on success the lines on
    [std::cerr] are the duplicate-key warnings followed by one line per
    unmatched candidate, and the summary counts every candidate of the
    tree. *)
Theorem macro_report (ep : EPFile) (outFile_ok : bool) (fileName : string)
    (input : LambdaFile) :
  let r := FilePrep_macro ep outFile_ok fileName input in
  (completed r = true <->
   exists eps cs, ep = EventPlaneTuple eps /\ outFile_ok = true /\
                  input = DecayTree cs) /\
  (completed r = false -> summary r = None) /\
  ((ep = EP_zombie \/ ep = EP_no_tree) ->
   length (report_cerr r) = 1%nat /\ indexed r = None /\
   output_created r = false) /\
  (forall eps, ep = EventPlaneTuple eps ->
     indexed r = Some (size (list_to_set (map key_of eps) : gset Key)) /\
     output_created r = outFile_ok /\
     exists rest,
       report_cerr r =
         map Diagnostic (duplicate_warnings ∅ eps) ++ rest /\
       (completed r = false -> length rest = 1%nat)) /\
  (forall eps cs, ep = EventPlaneTuple eps -> outFile_ok = true ->
     input = DecayTree cs ->
     let s := candidate_loop (build_index eps) cs init_stats in
     summary r = Some s /\
     totalLambdas s = Z.of_nat (length cs) /\
     report_cerr r =
       map Diagnostic (duplicate_warnings ∅ eps) ++
       map Diagnostic
         (map no_match_line (List.filter (unmatched (build_index eps)) cs))).
Proof.
  cbv zeta.
  assert (Hw : forall eps,
            index_cerr (build_index eps) = duplicate_warnings ∅ eps).
  { intros eps. unfold build_index. rewrite index_loop_cerr. simpl.
    rewrite dom_empty_L. reflexivity. }
  assert (Hn : forall eps,
            size (epIndexMap (build_index eps)) =
            size (list_to_set (map key_of eps) : gset Key)).
  { intros eps. rewrite <- size_dom. f_equal. unfold build_index.
    rewrite index_loop_dom. simpl.
    rewrite dom_empty_L, union_empty_l_L. reflexivity. }
  split; [|split; [|split; [|split]]].
  - split.
    + destruct ep as [| |eps]; try discriminate.
      destruct outFile_ok; [|discriminate].
      destruct input as [| | |cs]; try discriminate. eauto.
    + intros (eps & cs & -> & -> & ->). reflexivity.
  - destruct ep as [| |eps]; try reflexivity.
    destruct outFile_ok; [|reflexivity].
    destruct input; try reflexivity. discriminate.
  - intros [-> | ->]; auto.
  - intros eps ->. cbn [FilePrep_macro]. rewrite Hw, Hn.
    destruct outFile_ok; cbn [negb];
      [destruct input as [| | |cs]|]; cbn [indexed output_created report_cerr completed];
      (split; [reflexivity | split; [reflexivity|]]); eexists;
      (split; [reflexivity|]); try reflexivity; discriminate.
  - intros eps cs -> -> ->. cbn [FilePrep_macro negb summary report_cerr].
    split; [reflexivity|]. split.
    + destruct (candidate_loop_totals (build_index eps) cs init_stats)
        as (Ht & _). rewrite Ht. reflexivity.
    + rewrite Hw.
      destruct (candidate_loop_logs (build_index eps) cs init_stats)
        as (_ & _ & -> & _). reflexivity.
Qed.

Lemma macro_report_witness :
  completed (FilePrep_macro (EventPlaneTuple []) true "pbpb_0.root" L0_zombie)
    = false /\
  summary (FilePrep_macro (EventPlaneTuple []) true "pbpb_0.root" L0_zombie)
    = None.
Proof.
  split; [reflexivity|].
  apply (proj1 (proj2 (macro_report (EventPlaneTuple []) true "pbpb_0.root"
                         L0_zombie))).
  reflexivity.
Defined.

(** ** The hash of line 37 *)

Lemma lxor_below (a b : N) :
  (a < 2 ^ 64)%N -> (b < 2 ^ 64)%N -> (N.lxor a b < 2 ^ 64)%N.
Proof.
  intros Ha Hb.
  assert (L : forall x, (x < 2 ^ 64)%N -> (N.log2 x < 64)%N).
  { intros x Hx. destruct (N.eq_dec x 0%N) as [-> | Hne]; [reflexivity|].
    apply N.log2_lt_pow2; [lia | exact Hx]. }
  destruct (N.eq_dec (N.lxor a b) 0%N) as [-> | Hne]; [reflexivity|].
  apply N.log2_lt_pow2; [lia|].
  pose proof (N.log2_lxor a b). pose proof (L a Ha). pose proof (L b Hb). lia.
Qed.

(** X16: whatever the two standard hashes are, the hash of a key fits in
    64 bits when the hash of the run number does, and it depends on the
    hash of the event number only through its low 63 bits: two keys of the
    same run whose event hashes differ in the top bit alone have the same
    hash; with identity hashes the keys (run 2, event 0) and (run 0,
    event 1) also share the hash 2.  The index, which compares the pairs
    themselves, still keeps such keys apart. *)
Theorem hash_pair_collisions :
  (forall hU hL p, (hU (fst p) < 2 ^ 64)%N ->
     (hash_pair hU hL p < 2 ^ 64)%N) /\
  (forall hU hL run e1 e2,
     (hL e1 mod 2 ^ 63 = hL e2 mod 2 ^ 63)%N ->
     hash_pair hU hL (run, e1) = hash_pair hU hL (run, e2)) /\
  (hash_pair (fun n => n) (fun n => n) (2, 0)%N = 2%N /\ hash_pair (fun n => n) (fun n => n) (0, 1)%N = 2%N) /\
  (forall ep1 ep2, key_of ep1 = (2, 0)%N -> key_of ep2 = (0, 1)%N ->
     epIndexMap_find (build_index [ep1; ep2]) (2, 0)%N = Some 0 /\
     epIndexMap_find (build_index [ep1; ep2]) (0, 1)%N = Some 1 /\
     index_cerr (build_index [ep1; ep2]) = []).
Proof.
  split; [|split; [|split]].
  - intros hU hL p H. unfold hash_pair. apply lxor_below; [exact H|].
    apply N.mod_upper_bound. discriminate.
  - intros hU hL run e1 e2 H. unfold hash_pair. cbn [fst snd]. f_equal.
    rewrite !N.shiftl_mul_pow2.
    change (2 ^ 64)%N with (2 ^ 63 * 2 ^ 1)%N.
    rewrite !N.Div0.mul_mod_distr_r, H. reflexivity.
  - split; reflexivity.
  - intros ep1 ep2 H1 H2.
    unfold build_index. rewrite !index_loop_find, index_loop_cerr.
    cbn [last_position duplicate_warnings epIndexMap index_cerr app].
    rewrite H1, H2, dom_empty_L.
    rewrite !decide_False by (try discriminate; set_solver).
    rewrite !decide_True by reflexivity. auto.
Qed.

Lemma hash_pair_collisions_witness :
  hash_pair (fun n => n) (fun n => n) (7, 0)%N = hash_pair (fun n => n) (fun n => n) (7, 2 ^ 63)%N.
Proof.
  apply (proj1 (proj2 hash_pair_collisions) (fun n => n) (fun n => n) 7%N 0%N
           (2 ^ 63)%N).
  reflexivity.
Defined.

(** ** The order of the candidates *)

(** X17: the four totals, the thirteen cut counters and the set of run
    numbers at the end of the candidate loop do not depend on the order
    of the candidates in the tree. *)
Theorem candidate_order_irrelevant (ix : Index) (cs cs' : list Candidate) :
  Permutation cs cs' ->
  let s := candidate_loop ix cs init_stats in
  let s' := candidate_loop ix cs' init_stats in
  totalLambdas s = totalLambdas s' /\ failedCuts s = failedCuts s' /\
  noMatch s = noMatch s' /\ saved s = saved s' /\
  (forall x, cuts s x = cuts s' x) /\
  runNumbersInLambda s = runNumbersInLambda s'.
Proof.
  intros HP. cbv zeta.
  destruct (candidate_loop_totals ix cs init_stats) as (-> & -> & -> & ->).
  destruct (candidate_loop_totals ix cs' init_stats) as (-> & -> & -> & ->).
  destruct (candidate_loop_logs ix cs init_stats) as (_ & _ & _ & ->).
  destruct (candidate_loop_logs ix cs' init_stats) as (_ & _ & _ & ->).
  rewrite !(count_if_perm _ _ _ HP), (Permutation_length HP).
  repeat split.
  - intros x. rewrite !candidate_loop_cuts, (count_if_perm _ _ _ HP).
    reflexivity.
  - f_equal. apply set_eq. intros run.
    rewrite !elem_of_list_to_set. rewrite HP. reflexivity.
Qed.

Lemma candidate_order_irrelevant_witness :
  failedCuts (candidate_loop (build_index [])
                [sample_candidate; sample_low_pt] init_stats) =
  failedCuts (candidate_loop (build_index [])
                [sample_low_pt; sample_candidate] init_stats).
Proof.
  apply (candidate_order_irrelevant (build_index [])
           [sample_candidate; sample_low_pt]
           [sample_low_pt; sample_candidate]).
  apply perm_swap.
Defined.

(** ** The range of the counters *)

(** X19: after any number of iterations of the candidate loop every
    counter of lines 119-124 is between 0 and the number of candidates
    read so far; with fewer than 2^31 candidates in the tree no [int]
    counter overflows. *)
Theorem counters_fit_int (ix : Index) (done todo : list Candidate) :
  Z.of_nat (length (done ++ todo)) <= INT_MAX ->
  let s := candidate_loop ix done init_stats in
  let n := Z.of_nat (length done) in
  totalLambdas s = n /\ n <= INT_MAX /\
  0 <= failedCuts s <= n /\ 0 <= noMatch s <= n /\ 0 <= saved s <= n /\
  (forall x, 0 <= cuts s x <= n).
Proof.
  intros H. cbv zeta. rewrite length_app in H.
  destruct (candidate_loop_totals ix done init_stats) as (-> & -> & -> & ->).
  cbn [init_stats totalLambdas failedCuts noMatch saved Z.add].
  pose proof (count_if_bounds (fun c => negb (passes_all_cuts c)) done).
  pose proof (count_if_bounds (unmatched ix) done).
  pose proof (count_if_bounds (matched ix) done).
  repeat split; try lia;
    rewrite candidate_loop_cuts; cbn [init_stats cuts Z.add];
    pose proof (count_if_bounds (printed_condition x) done); lia.
Qed.

Lemma counters_fit_int_witness :
  Z.of_nat (length ([sample_low_pt] ++ [sample_candidate])) <= INT_MAX /\
  totalLambdas (candidate_loop (build_index []) [sample_low_pt] init_stats)
  = Z.of_nat (length [sample_low_pt]).
Proof.
  assert (H : Z.of_nat (length ([sample_low_pt] ++ [sample_candidate]))
              <= INT_MAX) by (apply Z.leb_le; reflexivity).
  split; [exact H|].
  exact (proj1 (counters_fit_int (build_index []) [sample_low_pt]
                  [sample_candidate] H)).
Defined.

End FilePrepFacts.
